(** * fibsem-os: AutoLamella workflow runners and napari pattern geometry

    A shallow embedding of
      - [fibsem/applications/autolamella/workflows/runners.py]
      - [fibsem/ui/napari/patterns.py]
    together with the properties stated about them.

    The runners are sequential Python code that mutates the position
    objects of an experiment in place, calls into the microscope and the
    user interface, and may raise.  They are embedded in a small state
    and exception monad over a store of positions and a chronological
    trace of the external calls made.  The geometry code is embedded over
    the real numbers. *)

From Stdlib Require Import ZArith List Bool Lia Sorted Reals Lra.
From stdpp Require Import base decidable option list strings.

Local Open Scope Z_scope.

(* ===================================================================== *)
(** ** Part I.  runners.py                                               *)
(* ===================================================================== *)

Module Runners.

(** Modelled from the spec: the declaration of [AutoLamellaStage] lives in
    [fibsem.applications.autolamella.structures], which is not among the
    sources.  The spec calls a workflow stage "an enum value denoting a
    position's progress"; the members below are the ones of the
    enumeration, and their numeric values are left as a parameter
    ([value]) of the development. *)
Inductive AutoLamellaStage : Set :=
  | Created
  | PositionReady
  | MillTrench
  | MillUndercut
  | LiftoutLamella
  | LandLamella
  | SetupLamella
  | MillRough
  | SetupPolishing
  | MillPolishing
  | Finished.

#[global] Instance AutoLamellaStage_eq_dec : EqDecision AutoLamellaStage.
Proof. solve_decision. Defined.

Definition all_stages : list AutoLamellaStage :=
  [Created; PositionReady; MillTrench; MillUndercut; LiftoutLamella;
   LandLamella; SetupLamella; MillRough; SetupPolishing; MillPolishing;
   Finished].

(** The stage functions imported from [workflows.core]. *)
Inductive StageFn : Set :=
  | mill_trench
  | mill_undercut
  | setup_lamella
  | mill_lamella
  | setup_polishing.

#[global] Instance StageFn_eq_dec : EqDecision StageFn.
Proof. solve_decision. Defined.

(** [WORKFLOW_STAGES]: a dict from stage to stage function; a missing key
    is [None] (Python raises [KeyError] on subscription). *)
Definition WORKFLOW_STAGES (s : AutoLamellaStage) : option StageFn :=
  match s with
  | MillTrench => Some mill_trench
  | MillUndercut => Some mill_undercut
  | SetupLamella => Some setup_lamella
  | MillRough => Some mill_lamella
  | SetupPolishing => Some setup_polishing
  | MillPolishing => Some mill_lamella
  | _ => None
  end.

Definition LAMELLA_MILLING_WORKFLOW : list AutoLamellaStage :=
  [MillRough; SetupPolishing; MillPolishing].

(** Exceptions the runners can raise on their own. *)
Inductive Exn : Set :=
  | UnboundLocalError
  | ValueError
  | KeyError
  | IndexError.

Inductive Result (A : Type) : Type :=
  | Ok (a : A)
  | Raise (e : Exn).
Arguments Ok {A} a.
Arguments Raise {A} e.

(** Membership in a list given by its elements. *)
Ltac in_list :=
  repeat first [ apply list_elem_of_here | apply list_elem_of_further ].

Section WithCollaborators.

(** The position record.  Its class is declared outside the sources; the
    runners read two attributes of it. *)
Context {Lamella : Type}.
Variable workflow : Lamella -> AutoLamellaStage.
Variable is_failure : Lamella -> bool.

(** [stage.value] of the enumeration. *)
Variable value : AutoLamellaStage -> Z.

(** The collaborators from [workflows.core].  Each receives the position
    object and updates it in place; the embedding takes the effect of a
    call on the record as a function of the record before the call.
    The microscope, protocol and parent UI arguments are ambient. *)
Variable start_of_stage_update :
  Lamella -> AutoLamellaStage -> bool (* restore_state *) -> Lamella.
Variable stage_effect : StageFn -> Lamella -> Lamella.
Variable end_of_stage_update : Lamella -> bool (* save_state *) -> Lamella.

(** [protocol.supervision[stage]]. *)
Variable supervision : AutoLamellaStage -> bool.

(** Truth value of [experiment.at_stage(stage)] on the current positions. *)
Variable at_stage : list Lamella -> AutoLamellaStage -> bool.

(** The user: the reply to the [n]-th prompt of a run. *)
Variable reply : nat -> bool.

(** External calls, as they appear in the trace.  Calls that concern a
    position carry its index in [experiment.positions] and, for the
    core functions, the record as it is when the call is made. *)
Inductive Call : Type :=
  | call_start_of_stage_update
      (i : nat) (lamella : Lamella) (next_stage : AutoLamellaStage)
      (restore_state : bool)
  | call_stage_fn (i : nat) (lamella : Lamella) (fn : StageFn)
  | call_end_of_stage_update (i : nat) (lamella : Lamella) (save_state : bool)
  | call_log_status_message (i : nat) (lamella : Lamella) (msg : string)
  | call_ask_user (position : option nat) (msg : string) (answer : bool)
  | call_ask_user_continue_workflow (msg : string) (validate answer : bool)
  | call_safe_absolute_stage_movement (i : nat)
  | call_take_reference_images (i : nat) (filename : string)
  | call_set_images_ui (i : nat).

Record State : Type := mkState {
  positions : list Lamella;   (* experiment.positions *)
  trace : list Call;          (* calls made so far, oldest first *)
  prompts : nat               (* number of prompts answered so far *)
}.

Definition M (A : Type) : Type := State -> State * Result A.

Definition ret {A} (a : A) : M A := fun st => (st, Ok a).

Definition bind {A B} (c : M A) (k : A -> M B) : M B :=
  fun st =>
    match c st with
    | (st', Ok a) => k a st'
    | (st', Raise e) => (st', Raise e)
    end.

Definition raise {A} (e : Exn) : M A := fun st => (st, Raise e).

Definition emit (c : Call) : M unit :=
  fun st => (mkState (positions st) (trace st ++ [c]) (prompts st), Ok tt).

Definition get_position (i : nat) : M Lamella :=
  fun st =>
    match positions st !! i with
    | Some l => (st, Ok l)
    | None => (st, Raise IndexError)
    end.

Definition set_position (i : nat) (l : Lamella) : M unit :=
  fun st => (mkState (<[i:=l]> (positions st)) (trace st) (prompts st), Ok tt).

Definition get_positions : M (list Lamella) :=
  fun st => (st, Ok (positions st)).

Definition next_reply : M bool :=
  fun st =>
    (mkState (positions st) (trace st) (S (prompts st)), Ok (reply (prompts st))).

Notation "x <- c ;; k" := (bind c (fun x => k))
  (at level 100, c at next level, right associativity).
Notation "c ;;; k" := (bind c (fun _ : unit => k))
  (at level 100, right associativity).

(** *** Calls into [workflows.core] on the position at index [i] *)

Definition do_start_of_stage_update
    (i : nat) (next_stage : AutoLamellaStage) (restore_state : bool) : M unit :=
  lamella <- get_position i ;;
  emit (call_start_of_stage_update i lamella next_stage restore_state) ;;;
  set_position i (start_of_stage_update lamella next_stage restore_state).

Definition do_stage_fn (i : nat) (fn : StageFn) : M unit :=
  lamella <- get_position i ;;
  emit (call_stage_fn i lamella fn) ;;;
  set_position i (stage_effect fn lamella).

Definition do_end_of_stage_update (i : nat) (save_state : bool) : M unit :=
  lamella <- get_position i ;;
  emit (call_end_of_stage_update i lamella save_state) ;;;
  set_position i (end_of_stage_update lamella save_state).

Definition do_log_status_message (i : nat) (msg : string) : M unit :=
  lamella <- get_position i ;;
  emit (call_log_status_message i lamella msg).

(** [log_status_message(lamella, "NULL_END")] after a loop: the loop
    variable [lamella] is a local that only the [for] statement binds. *)
Definition log_null_end (lamella : option nat) : M unit :=
  match lamella with
  | Some i => do_log_status_message i "NULL_END"
  | None => raise UnboundLocalError
  end.

(** *** [for lamella in experiment.positions: body]

    The positions are visited by index, first to last; [for_range body i n]
    runs the body at [i], [i+1], ..., [i+n-1].  [for_positions] returns the
    binding of the loop variable after the loop: the last position when
    there is one, and the binding it had before otherwise. *)
Fixpoint for_range (body : nat -> M unit) (i n : nat) : M unit :=
  match n with
  | O => ret tt
  | S n' => body i ;;; for_range body (S i) n'
  end.

Definition last_index (n : nat) (before : option nat) : option nat :=
  match n with
  | O => before
  | S n' => Some n'
  end.

Definition for_positions (body : nat -> M unit) (before : option nat)
  : M (option nat) :=
  ps <- get_positions ;;
  for_range body 0 (length ps) ;;;
  ret (last_index (length ps) before).

(** *** [run_trench_milling] *)

Definition trench_body (i : nat) : M unit :=
  lamella <- get_position i ;;
  if bool_decide (workflow lamella = PositionReady) && negb (is_failure lamella)
  then
    do_start_of_stage_update i MillTrench true ;;;
    do_stage_fn i mill_trench ;;;
    do_end_of_stage_update i true
  else ret tt.

Definition run_trench_milling : M unit :=
  lamella <- for_positions trench_body None ;;
  log_null_end lamella.

(** *** [run_undercut_milling] *)

Definition undercut_body (i : nat) : M unit :=
  lamella <- get_position i ;;
  (if bool_decide (workflow lamella = MillTrench) && negb (is_failure lamella)
   then
     do_start_of_stage_update i MillUndercut true ;;;
     do_stage_fn i mill_undercut ;;;
     do_end_of_stage_update i true
   else ret tt) ;;;
  do_log_status_message i "NULL_END".

Definition run_undercut_milling : M unit :=
  _ <- for_positions undercut_body None ;;
  ret tt.

(** *** [run_setup_lamella] *)

Definition setup_body (i : nat) : M unit :=
  lamella <- get_position i ;;
  if bool_decide (workflow lamella ∈ [PositionReady; MillUndercut; LandLamella])
     && negb (is_failure lamella)
  then
    do_start_of_stage_update i SetupLamella true ;;;
    do_stage_fn i setup_lamella ;;;
    do_end_of_stage_update i true
  else ret tt.

Definition run_setup_lamella : M unit :=
  lamella <- for_positions setup_body None ;;
  log_null_end lamella.

(** *** [run_lamella_milling] *)

(** [AutoLamellaStage(v)]: the member whose value is [v]; [ValueError]
    when there is none. *)
Definition stage_of_value (v : Z) : option AutoLamellaStage :=
  List.find (fun s => Z.eqb (value s) v) all_stages.

(** Lines 134-137.  [is_previous_completed] is assigned under two [if]s;
    for a stage that is in neither the name stays unbound. *)
Definition is_previous_completed (stage : AutoLamellaStage) (lamella : Lamella)
  : M bool :=
  if bool_decide (stage ∈ [MillRough; SetupPolishing]) then
    match stage_of_value (value stage - 1) with
    | Some prev => ret (bool_decide (workflow lamella = prev))
    | None => raise ValueError
    end
  else if bool_decide (stage = MillPolishing) then
    ret (bool_decide (workflow lamella ∈ [MillRough; SetupPolishing]))
  else raise UnboundLocalError.

Definition milling_body (stage : AutoLamellaStage) (i : nat) : M unit :=
  lamella <- get_position i ;;
  previous <- is_previous_completed stage lamella ;;
  let is_ready := previous && negb (is_failure lamella) in
  if is_ready then
    do_start_of_stage_update i stage true ;;;
    lamella <- get_position i ;;
    match WORKFLOW_STAGES (workflow lamella) with
    | Some fn =>
        do_stage_fn i fn ;;;
        do_end_of_stage_update i true
    | None => raise KeyError
    end
  else ret tt.

Definition finish_body (i : nat) : M unit :=
  lamella <- get_position i ;;
  if bool_decide (workflow lamella = MillPolishing) && negb (is_failure lamella)
  then
    do_start_of_stage_update i Finished false ;;;
    do_end_of_stage_update i false
  else ret tt.

(** [for stage in LAMELLA_MILLING_WORKFLOW: ...], threading the binding of
    the inner loop variable. *)
Fixpoint milling_stages
    (stages : list AutoLamellaStage) (stages_to_complete : list AutoLamellaStage)
    (lamella : option nat) : M (option nat) :=
  match stages with
  | [] => ret lamella
  | stage :: rest =>
      if bool_decide (stage ∈ stages_to_complete) then
        lamella' <- for_positions (milling_body stage) lamella ;;
        milling_stages rest stages_to_complete lamella'
      else
        milling_stages rest stages_to_complete lamella
  end.

Definition run_lamella_milling (stages_to_complete : list AutoLamellaStage)
  : M unit :=
  lamella <- milling_stages LAMELLA_MILLING_WORKFLOW stages_to_complete None ;;
  lamella <- for_positions finish_body lamella ;;
  log_null_end lamella.

(** *** Prompts *)

Definition ask_user (position : option nat) (msg : string) : M bool :=
  answer <- next_reply ;;
  emit (call_ask_user position msg answer) ;;;
  ret answer.

Definition ask_user_continue_workflow (msg : string) (validate : bool) : M bool :=
  answer <- next_reply ;;
  emit (call_ask_user_continue_workflow msg validate answer) ;;;
  ret answer.

(** *** [run_autolamella] *)

Definition run_autolamella (stages_to_complete : list AutoLamellaStage)
  : M unit :=
  go_on <-
    (if bool_decide (SetupLamella ∈ stages_to_complete) then
       run_setup_lamella ;;;
       if supervision SetupLamella then
         ask_user None "Start AutoLamella Milling?"
       else ret true
     else ret true) ;;
  if go_on then run_lamella_milling stages_to_complete else ret tt.

(** *** [run_autolamella_waffle] *)

Definition waffle_trench (stages_to_complete : list AutoLamellaStage) : M unit :=
  ps <- get_positions ;;
  if bool_decide (MillTrench ∈ stages_to_complete) && at_stage ps PositionReady
  then run_trench_milling
  else ret tt.

(** The second block; the result says whether the runner goes on. *)
Definition waffle_undercut (stages_to_complete : list AutoLamellaStage) : M bool :=
  ps <- get_positions ;;
  if bool_decide (MillUndercut ∈ stages_to_complete) && at_stage ps MillTrench
  then
    go_on <- ask_user_continue_workflow "Continue to Mill Undercut?"
               (supervision MillUndercut) ;;
    if go_on then run_undercut_milling ;;; ret true else ret false
  else ret true.

Definition waffle_setup (stages_to_complete : list AutoLamellaStage) : M bool :=
  ps <- get_positions ;;
  if bool_decide (SetupLamella ∈ stages_to_complete) && at_stage ps MillUndercut
  then
    ask_user_continue_workflow "Continue to Setup Lamella?"
      (supervision SetupLamella)
  else ret true.

Definition run_autolamella_waffle (stages_to_complete : list AutoLamellaStage)
  : M unit :=
  waffle_trench stages_to_complete ;;;
  go_on <- waffle_undercut stages_to_complete ;;
  if go_on then
    go_on <- waffle_setup stages_to_complete ;;
    if go_on then run_autolamella stages_to_complete else ret tt
  else ret tt.

(** *** [run_spot_burn_workflow]

    The loop leaves by [break] when the user answers Exit; the function
    has no [return] statement.  The position is not tested for failure.
    The prompt's message names the position ([position.name]); the call
    recorded here carries the position's index instead. *)
Definition spot_burn_body (i : nat) : M bool :=
  emit (call_safe_absolute_stage_movement i) ;;;
  emit (call_take_reference_images i "ref_spot_burn_start") ;;;
  emit (call_set_images_ui i) ;;;
  go_on <- ask_user (Some i)
             "Run the spot burn workflow. Press continue when finished." ;;
  if go_on then
    emit (call_take_reference_images i "ref_spot_burn_end") ;;;
    emit (call_set_images_ui i) ;;;
    ret true
  else ret false.

Fixpoint for_range_break (body : nat -> M bool) (i n : nat) : M unit :=
  match n with
  | O => ret tt
  | S n' =>
      go_on <- body i ;;
      if go_on then for_range_break body (S i) n' else ret tt
  end.

Definition run_spot_burn_workflow : M unit :=
  ps <- get_positions ;;
  for_range_break spot_burn_body 0 (length ps).


(** *** Vocabulary for the statements *)

Definition init (ps : list Lamella) : State := mkState ps [] 0.

(** The state a run ends in, and how it ends. *)
Definition final {A} (c : M A) (st : State) : State := (c st).1.
Definition outcome {A} (c : M A) (st : State) : Result A := (c st).2.

(** The position a call is made for. *)
Definition on_position (c : Call) : option nat :=
  match c with
  | call_start_of_stage_update i _ _ _ => Some i
  | call_stage_fn i _ _ => Some i
  | call_end_of_stage_update i _ _ => Some i
  | call_log_status_message i _ _ => Some i
  | call_ask_user position _ _ => position
  | call_ask_user_continue_workflow _ _ _ => None
  | call_safe_absolute_stage_movement i => Some i
  | call_take_reference_images i _ => Some i
  | call_set_images_ui i => Some i
  end.

(** [works_on i c]: the call does work for position [i].  Writing a line
    to the log with [log_status_message] does not count. *)
Definition works_on (i : nat) (c : Call) : bool :=
  match c with
  | call_log_status_message _ _ _ => false
  | _ => bool_decide (on_position c = Some i)
  end.

(** A run skips position [i], whose record was [l] when the run began:
    the record is as it was and no call worked on it. *)
Definition skipped (i : nat) (l : Lamella) (st : State) : Prop :=
  positions st !! i = Some l ∧ Forall (fun c => works_on i c = false) (trace st).

Definition skips_failed (run : M unit) : Prop :=
  ∀ ps i l, ps !! i = Some l → is_failure l = true →
    skipped i l (final run (init ps)).


(** What [run_trench_milling] is to do with one position: the test of
    line 49, the three calls it makes on a ready position, and the record
    they leave. *)
Definition trench_ready (lamella : Lamella) : bool :=
  bool_decide (workflow lamella = PositionReady) && negb (is_failure lamella).

Definition trench_calls (i : nat) (lamella : Lamella) : list Call :=
  if trench_ready lamella then
    let started := start_of_stage_update lamella MillTrench true in
    let milled := stage_effect mill_trench started in
    [call_start_of_stage_update i lamella MillTrench true;
     call_stage_fn i started mill_trench;
     call_end_of_stage_update i milled true]
  else [].

Definition trench_advance (lamella : Lamella) : Lamella :=
  if trench_ready lamella then
    end_of_stage_update
      (stage_effect mill_trench (start_of_stage_update lamella MillTrench true))
      true
  else lamella.

(** The closing [log_status_message(lamella, "NULL_END")], on the last
    position of a non-empty list. *)
Definition null_end_log (ps : list Lamella) : list Call :=
  match ps !! (length ps - 1)%nat with
  | Some lamella =>
      [call_log_status_message (length ps - 1)%nat lamella "NULL_END"]
  | None => []
  end.

(** The stage a call enters a position into, and the stages entered in
    the course of a trace, in order. *)
Definition entered_by (c : Call) : option AutoLamellaStage :=
  match c with
  | call_start_of_stage_update _ _ next_stage _ => Some next_stage
  | _ => None
  end.

Definition entered (tr : list Call) : list AutoLamellaStage := omap entered_by tr.

(** The condition under which [run_lamella_milling] may enter a position
    into a stage; [lamella] is the record when [start_of_stage_update] is
    called. *)
Definition milling_guard (c : Call) : Prop :=
  match c with
  | call_start_of_stage_update _ lamella next_stage _ =>
      is_failure lamella = false ∧
      match next_stage with
      | MillRough | SetupPolishing =>
          value (workflow lamella) = value next_stage - 1
      | MillPolishing =>
          workflow lamella = MillRough ∨ workflow lamella = SetupPolishing
      | Finished => workflow lamella = MillPolishing
      | _ => False
      end
  | _ => True
  end.

(** Place of a stage in the order of attempts of [run_lamella_milling]:
    the three stages of [LAMELLA_MILLING_WORKFLOW], then the finish. *)
Definition attempt_rank (s : AutoLamellaStage) : nat :=
  match s with
  | MillRough => 0
  | SetupPolishing => 1
  | MillPolishing => 2
  | Finished => 3
  | _ => 4
  end.

Definition attempted_before (s t : AutoLamellaStage) : Prop :=
  (attempt_rank s ≤ attempt_rank t)%nat.

(** Prompts, and the replies to them. *)
Definition is_prompt (c : Call) : bool :=
  match c with
  | call_ask_user _ _ _ | call_ask_user_continue_workflow _ _ _ => true
  | _ => false
  end.










(** *** Reasoning about runs: invariants of the final state *)

Definition preserves {A} (I : State → Prop) (c : M A) : Prop :=
  ∀ st, I st → I (final c st).

Lemma preserves_ret {A} (I : State → Prop) (a : A) : preserves I (ret a).
Proof. intros st H; exact H. Qed.

Lemma preserves_raise {A} (I : State → Prop) (e : Exn) : preserves I (raise (A:=A) e).
Proof. intros st H; exact H. Qed.

Lemma preserves_bind {A B} (I : State → Prop) (c : M A) (k : A → M B) :
  preserves I c → (∀ a, preserves I (k a)) → preserves I (bind c k).
Proof.
  intros Hc Hk st HI. specialize (Hc st HI).
  unfold final, bind in *.
  destruct (c st) as [st' [a|e]]; simpl in *; [ apply Hk, Hc | exact Hc ].
Qed.

Lemma preserves_if {A} (I : State → Prop) (b : bool) (c1 c2 : M A) :
  preserves I c1 → preserves I c2 → preserves I (if b then c1 else c2).
Proof. destruct b; auto. Qed.

Lemma preserves_get_position (I : State → Prop) (j : nat) :
  preserves I (get_position j).
Proof.
  intros st HI. unfold final, get_position.
  destruct (positions st !! j); exact HI.
Qed.

Lemma preserves_get_positions (I : State → Prop) : preserves I get_positions.
Proof. intros st HI; exact HI. Qed.

(** Reading a position and going on with what was read. *)
Lemma preserves_read (I : State → Prop) {B} (j : nat) (k : Lamella → M B) :
  (∀ lamella st, I st → positions st !! j = Some lamella →
     I (final (k lamella) st)) →
  preserves I (bind (get_position j) k).
Proof.
  intros Hk st HI. unfold final, bind, get_position in *.
  destruct (positions st !! j) as [lamella|] eqn:E; simpl; [ | exact HI ].
  apply Hk; assumption.
Qed.

Lemma preserves_for_range (I : State → Prop) (body : nat → M unit) :
  (∀ j, preserves I (body j)) → ∀ n i, preserves I (for_range body i n).
Proof.
  intros Hb n; induction n as [|n IH]; intros i; simpl.
  - apply preserves_ret.
  - apply preserves_bind; [ apply Hb | intros _; apply IH ].
Qed.

Lemma preserves_for_positions (I : State → Prop) (body : nat → M unit) before :
  (∀ j, preserves I (body j)) → preserves I (for_positions body before).
Proof.
  intros Hb. unfold for_positions.
  apply preserves_bind; [ apply preserves_get_positions | intros ps ].
  apply preserves_bind; [ apply preserves_for_range, Hb | intros _ ].
  apply preserves_ret.
Qed.

Lemma preserves_for_range_break (I : State → Prop) (body : nat → M bool) :
  (∀ j, preserves I (body j)) → ∀ n i, preserves I (for_range_break body i n).
Proof.
  intros Hb n; induction n as [|n IH]; intros i; simpl.
  - apply preserves_ret.
  - apply preserves_bind; [ apply Hb | intros [|] ];
      [ apply IH | apply preserves_ret ].
Qed.

(** Invariants that only speak of the trace, call by call. *)
Definition trace_inv (P : list Call → Prop) : State → Prop :=
  fun st => P (trace st).

Lemma preserves_emit (I : State → Prop) (c : Call) :
  (∀ st, I st → I (mkState (positions st) (trace st ++ [c]) (prompts st))) →
  preserves I (emit c).
Proof. intros H st HI. apply H, HI. Qed.

Lemma preserves_set_position (I : State → Prop) (j : nat) (x : Lamella) :
  (∀ st, I st → I (mkState (<[j:=x]> (positions st)) (trace st) (prompts st))) →
  preserves I (set_position j x).
Proof. intros H st HI. apply H, HI. Qed.

Lemma preserves_next_reply (I : State → Prop) :
  (∀ st, I st → I (mkState (positions st) (trace st) (S (prompts st)))) →
  preserves I next_reply.
Proof. intros H st HI. apply H, HI. Qed.


Lemma is_previous_completed_pure stage lamella st :
  (is_previous_completed stage lamella st).1 = st.
Proof.
  unfold is_previous_completed.
  destruct (bool_decide (stage ∈ [MillRough; SetupPolishing]));
    [ destruct (stage_of_value _); reflexivity | ].
  destruct (bool_decide (stage = MillPolishing)); reflexivity.
Qed.

(** *** Failed positions are skipped by the milling runners *)

Section Skipping.

Variable i : nat.
Variable l : Lamella.
Hypothesis l_failed : is_failure l = true.

Lemma skipped_emit (c : Call) st :
  works_on i c = false → skipped i l st →
  skipped i l (mkState (positions st) (trace st ++ [c]) (prompts st)).
Proof.
  intros Hc [Hp Ht]; split; simpl; [ exact Hp | ].
  apply Forall_app; split; [ exact Ht | repeat constructor; exact Hc ].
Qed.

Lemma skipped_set_other (j : nat) (x : Lamella) st :
  j ≠ i → skipped i l st →
  skipped i l (mkState (<[j:=x]> (positions st)) (trace st) (prompts st)).
Proof.
  intros Hj [Hp Ht]; split; simpl; [ | exact Ht ].
  rewrite list_lookup_insert_ne; assumption.
Qed.

Lemma works_on_other (j : nat) (c : Call) :
  j ≠ i → on_position c = Some j → works_on i c = false.
Proof.
  intros Hj Hc. destruct c; simpl in *; try reflexivity;
    rewrite Hc; apply bool_decide_eq_false; congruence.
Qed.

Lemma skipped_do_start (j : nat) s r :
  j ≠ i → preserves (skipped i l) (do_start_of_stage_update j s r).
Proof.
  intros Hj. unfold do_start_of_stage_update.
  apply preserves_bind; [ apply preserves_get_position | intros x ].
  apply preserves_bind; [ | intros _ ].
  - apply preserves_emit; intros st. apply skipped_emit.
    apply (works_on_other j); [ exact Hj | reflexivity ].
  - apply preserves_set_position; intros st. apply skipped_set_other, Hj.
Qed.

Lemma skipped_do_stage_fn (j : nat) fn :
  j ≠ i → preserves (skipped i l) (do_stage_fn j fn).
Proof.
  intros Hj. unfold do_stage_fn.
  apply preserves_bind; [ apply preserves_get_position | intros x ].
  apply preserves_bind; [ | intros _ ].
  - apply preserves_emit; intros st. apply skipped_emit.
    apply (works_on_other j); [ exact Hj | reflexivity ].
  - apply preserves_set_position; intros st. apply skipped_set_other, Hj.
Qed.

Lemma skipped_do_end (j : nat) save :
  j ≠ i → preserves (skipped i l) (do_end_of_stage_update j save).
Proof.
  intros Hj. unfold do_end_of_stage_update.
  apply preserves_bind; [ apply preserves_get_position | intros x ].
  apply preserves_bind; [ | intros _ ].
  - apply preserves_emit; intros st. apply skipped_emit.
    apply (works_on_other j); [ exact Hj | reflexivity ].
  - apply preserves_set_position; intros st. apply skipped_set_other, Hj.
Qed.

Lemma skipped_do_log (j : nat) msg :
  preserves (skipped i l) (do_log_status_message j msg).
Proof.
  unfold do_log_status_message.
  apply preserves_bind; [ apply preserves_get_position | intros x ].
  apply preserves_emit; intros st. apply skipped_emit. reflexivity.
Qed.

Lemma skipped_log_null_end lamella :
  preserves (skipped i l) (log_null_end lamella).
Proof.
  destruct lamella; simpl; [ apply skipped_do_log | apply preserves_raise ].
Qed.

(** A guard [cond && not lamella.is_failure] fails on the failed record. *)
Lemma failed_guard (b : bool) (j : nat) (lamella : Lamella) st :
  skipped i l st → positions st !! j = Some lamella →
  b && negb (is_failure lamella) = true → j ≠ i.
Proof.
  intros [Hp _] Hl Hg ->. rewrite Hp in Hl. injection Hl as <-.
  rewrite l_failed, andb_false_r in Hg. discriminate.
Qed.

Lemma skipped_stage_triple (j : nat) s fn :
  j ≠ i →
  preserves (skipped i l)
    (do_start_of_stage_update j s true ;;;
     do_stage_fn j fn ;;;
     do_end_of_stage_update j true).
Proof.
  intros Hj.
  apply preserves_bind; [ apply skipped_do_start, Hj | intros _ ].
  apply preserves_bind; [ apply skipped_do_stage_fn, Hj | intros _ ].
  apply skipped_do_end, Hj.
Qed.

Lemma skipped_trench_body (j : nat) : preserves (skipped i l) (trench_body j).
Proof.
  apply preserves_read; intros lamella st HI Hl.
  destruct (_ && _) eqn:Hg; [ | exact HI ].
  apply skipped_stage_triple; [ | exact HI ].
  exact (failed_guard _ j lamella st HI Hl Hg).
Qed.

Lemma skipped_undercut_body (j : nat) : preserves (skipped i l) (undercut_body j).
Proof.
  apply preserves_read; intros lamella st HI Hl.
  apply preserves_bind; [ | intros _; apply skipped_do_log | exact HI ].
  destruct (_ && _) eqn:Hg; [ | apply preserves_ret ].
  apply skipped_stage_triple. exact (failed_guard _ j lamella st HI Hl Hg).
Qed.

Lemma skipped_setup_body (j : nat) : preserves (skipped i l) (setup_body j).
Proof.
  apply preserves_read; intros lamella st HI Hl.
  destruct (_ && _) eqn:Hg; [ | exact HI ].
  apply skipped_stage_triple; [ | exact HI ].
  exact (failed_guard _ j lamella st HI Hl Hg).
Qed.

Lemma skipped_finish_body (j : nat) : preserves (skipped i l) (finish_body j).
Proof.
  apply preserves_read; intros lamella st HI Hl.
  destruct (_ && _) eqn:Hg; [ | exact HI ].
  assert (Hj : j ≠ i) by exact (failed_guard _ j lamella st HI Hl Hg).
  apply (preserves_bind _ (do_start_of_stage_update j Finished false)
           (fun _ => do_end_of_stage_update j false));
    [ apply skipped_do_start, Hj | intros _; apply skipped_do_end, Hj | exact HI ].
Qed.

Lemma skipped_milling_body (stage : AutoLamellaStage) (j : nat) :
  preserves (skipped i l) (milling_body stage j).
Proof.
  apply preserves_read; intros lamella st HI Hl.
  unfold final, bind.
  pose proof (is_previous_completed_pure stage lamella st) as Hpure.
  destruct (is_previous_completed stage lamella st) as [st' [previous|e]];
    simpl in Hpure; subst st'; [ | exact HI ].
  destruct (previous && negb (is_failure lamella)) eqn:Hg; [ | exact HI ].
  assert (Hj : j ≠ i) by exact (failed_guard _ j lamella st HI Hl Hg).
  apply (preserves_bind (skipped i l)); [ apply skipped_do_start, Hj | | exact HI ].
  intros _. apply preserves_bind; [ apply preserves_get_position | intros x ].
  destruct (WORKFLOW_STAGES (workflow x)); [ | apply preserves_raise ].
  apply preserves_bind; [ apply skipped_do_stage_fn, Hj | intros _ ].
  apply skipped_do_end, Hj.
Qed.

Lemma skipped_milling_stages stages stages_to_complete lamella :
  preserves (skipped i l) (milling_stages stages stages_to_complete lamella).
Proof.
  revert lamella; induction stages as [|stage rest IH]; intros lamella; simpl.
  - apply preserves_ret.
  - destruct (bool_decide _); [ | apply IH ].
    apply preserves_bind; [ | intros lamella'; apply IH ].
    apply preserves_for_positions, skipped_milling_body.
Qed.

Lemma skipped_run_trench_milling : preserves (skipped i l) run_trench_milling.
Proof.
  apply preserves_bind; [ | apply skipped_log_null_end ].
  apply preserves_for_positions, skipped_trench_body.
Qed.

Lemma skipped_run_undercut_milling : preserves (skipped i l) run_undercut_milling.
Proof.
  apply preserves_bind; [ | intros _; apply preserves_ret ].
  apply preserves_for_positions, skipped_undercut_body.
Qed.

Lemma skipped_run_setup_lamella : preserves (skipped i l) run_setup_lamella.
Proof.
  apply preserves_bind; [ | apply skipped_log_null_end ].
  apply preserves_for_positions, skipped_setup_body.
Qed.

Lemma skipped_run_lamella_milling stages_to_complete :
  preserves (skipped i l) (run_lamella_milling stages_to_complete).
Proof.
  apply preserves_bind; [ apply skipped_milling_stages | intros lamella ].
  apply preserves_bind; [ | apply skipped_log_null_end ].
  apply preserves_for_positions, skipped_finish_body.
Qed.

End Skipping.

Lemma skipped_init (ps : list Lamella) (i : nat) (l : Lamella) :
  ps !! i = Some l → skipped i l (init ps).
Proof. intros H; split; [ exact H | constructor ]. Qed.

(** The four milling runners make no call at all for a position whose
    failure flag is set when they start, log lines aside, and leave its
    record as it was, whatever the other positions are and however the
    run ends. *)
Lemma milling_runners_skip_failed_positions :
  skips_failed run_trench_milling ∧
  skips_failed run_undercut_milling ∧
  skips_failed run_setup_lamella ∧
  ∀ stages_to_complete, skips_failed (run_lamella_milling stages_to_complete).
Proof.
  split; [ | split; [ | split; [ | intros stages_to_complete ] ] ];
    intros ps i l Hl Hf.
  - apply (skipped_run_trench_milling i l Hf), skipped_init, Hl.
  - apply (skipped_run_undercut_milling i l Hf), skipped_init, Hl.
  - apply (skipped_run_setup_lamella i l Hf), skipped_init, Hl.
  - apply (skipped_run_lamella_milling i l Hf), skipped_init, Hl.
Qed.


(** *** No stage function on a failed position *)

(** A call that works a stage on position [i]: [start_of_stage_update], a
    stage function, or [end_of_stage_update]. *)
Definition stage_call_on (i : nat) (c : Call) : bool :=
  match c with
  | call_start_of_stage_update j _ _ _ => bool_decide (j = i)
  | call_stage_fn j _ _ => bool_decide (j = i)
  | call_end_of_stage_update j _ _ => bool_decide (j = i)
  | _ => false
  end.

(** Position [i], whose record was [l] when the run began, has had no
    stage function invoked on it, and its record is as it was. *)
Definition untouched (i : nat) (l : Lamella) (st : State) : Prop :=
  positions st !! i = Some l ∧
  Forall (fun c => stage_call_on i c = false) (trace st).

Definition leaves_failed_untouched (run : M unit) : Prop :=
  ∀ ps i l, ps !! i = Some l → is_failure l = true →
    untouched i l (final run (init ps)).

Lemma skipped_untouched (i : nat) (l : Lamella) st :
  skipped i l st → untouched i l st.
Proof.
  intros [Hp Ht]. split; [ exact Hp | ].
  eapply Forall_impl; [ exact Ht | ]. intros c Hc.
  destruct c; simpl in *; try reflexivity;
    apply bool_decide_eq_false; intros ->;
    apply bool_decide_eq_false in Hc; apply Hc; reflexivity.
Qed.

Lemma untouched_emit (i : nat) (l : Lamella) (c : Call) :
  stage_call_on i c = false → preserves (untouched i l) (emit c).
Proof.
  intros Hc. apply preserves_emit. intros st [Hp Ht]. split; [ exact Hp | ].
  apply Forall_app; split; [ exact Ht | apply Forall_singleton, Hc ].
Qed.

Lemma untouched_spot_burn_body (i : nat) (l : Lamella) (j : nat) :
  preserves (untouched i l) (spot_burn_body j).
Proof.
  unfold spot_burn_body.
  do 3 (apply preserves_bind; [ apply untouched_emit; reflexivity | intros _ ]).
  apply preserves_bind; [ | intros go_on ].
  - unfold ask_user.
    apply preserves_bind; [ | intros answer ].
    + apply preserves_next_reply. intros st H; exact H.
    + apply preserves_bind; [ apply untouched_emit; reflexivity | intros _ ].
      apply preserves_ret.
  - apply preserves_if; [ | apply preserves_ret ].
    do 2 (apply preserves_bind; [ apply untouched_emit; reflexivity | intros _ ]).
    apply preserves_ret.
Qed.

Lemma untouched_run_spot_burn_workflow (i : nat) (l : Lamella) :
  preserves (untouched i l) run_spot_burn_workflow.
Proof.
  unfold run_spot_burn_workflow.
  apply preserves_bind; [ apply preserves_get_positions | intros ps ].
  apply preserves_for_range_break, untouched_spot_burn_body.
Qed.

(** C1.  For every position whose failure flag is set when a runner
    starts, each of the five runners that iterate over
    [experiment.positions] -- [run_trench_milling],
    [run_undercut_milling], [run_setup_lamella], [run_lamella_milling]
    and [run_spot_burn_workflow] -- invokes no stage function on it
    (neither [start_of_stage_update], nor a function of
    [WORKFLOW_STAGES], nor [end_of_stage_update]) and leaves its record
    as it was, whatever the other positions are and however the run
    ends.  The four milling runners do so by their test of the flag;
    [run_spot_burn_workflow] never reads the flag, and does so because
    it invokes no stage function and changes no record at all. *)
Theorem runners_invoke_no_stage_function_on_failed_positions :
  leaves_failed_untouched run_trench_milling ∧
  leaves_failed_untouched run_undercut_milling ∧
  leaves_failed_untouched run_setup_lamella ∧
  (∀ stages_to_complete,
     leaves_failed_untouched (run_lamella_milling stages_to_complete)) ∧
  leaves_failed_untouched run_spot_burn_workflow.
Proof.
  split; [ | split; [ | split; [ | split; [ intros stages_to_complete | ] ] ] ];
    intros ps i l Hl Hf.
  - apply skipped_untouched, (skipped_run_trench_milling i l Hf), skipped_init, Hl.
  - apply skipped_untouched, (skipped_run_undercut_milling i l Hf), skipped_init, Hl.
  - apply skipped_untouched, (skipped_run_setup_lamella i l Hf), skipped_init, Hl.
  - apply skipped_untouched, (skipped_run_lamella_milling i l Hf), skipped_init, Hl.
  - apply untouched_run_spot_burn_workflow. split; [ exact Hl | constructor ].
Qed.


(** *** The loop of [run_trench_milling], position by position *)

Lemma lookup_focus (done rest : list Lamella) (x : Lamella) :
  (done ++ x :: rest) !! length done = Some x.
Proof. apply list_lookup_middle; reflexivity. Qed.

Lemma insert_focus (done rest : list Lamella) (x y : Lamella) :
  <[length done := y]> (done ++ x :: rest) = done ++ y :: rest.
Proof.
  rewrite insert_app_r_alt by lia. rewrite Nat.sub_diag. reflexivity.
Qed.

Lemma do_start_focus done x rest tr n s r :
  do_start_of_stage_update (length done) s r (mkState (done ++ x :: rest) tr n) =
  (mkState (done ++ start_of_stage_update x s r :: rest)
     (tr ++ [call_start_of_stage_update (length done) x s r]) n, Ok tt).
Proof.
  unfold do_start_of_stage_update, bind, get_position, emit, set_position; simpl.
  rewrite lookup_focus; simpl. rewrite insert_focus. reflexivity.
Qed.

Lemma do_stage_fn_focus done x rest tr n fn :
  do_stage_fn (length done) fn (mkState (done ++ x :: rest) tr n) =
  (mkState (done ++ stage_effect fn x :: rest)
     (tr ++ [call_stage_fn (length done) x fn]) n, Ok tt).
Proof.
  unfold do_stage_fn, bind, get_position, emit, set_position; simpl.
  rewrite lookup_focus; simpl. rewrite insert_focus. reflexivity.
Qed.

Lemma do_end_focus done x rest tr n save :
  do_end_of_stage_update (length done) save (mkState (done ++ x :: rest) tr n) =
  (mkState (done ++ end_of_stage_update x save :: rest)
     (tr ++ [call_end_of_stage_update (length done) x save]) n, Ok tt).
Proof.
  unfold do_end_of_stage_update, bind, get_position, emit, set_position; simpl.
  rewrite lookup_focus; simpl. rewrite insert_focus. reflexivity.
Qed.

Lemma trench_body_focus done x rest tr n :
  trench_body (length done) (mkState (done ++ x :: rest) tr n) =
  (mkState (done ++ trench_advance x :: rest)
     (tr ++ trench_calls (length done) x) n, Ok tt).
Proof.
  unfold trench_body, trench_advance, trench_calls, trench_ready.
  unfold bind at 1. unfold get_position at 1. simpl. rewrite lookup_focus.
  destruct (_ && _).
  - unfold bind. rewrite do_start_focus, do_stage_fn_focus, do_end_focus.
    rewrite <- !app_assoc. reflexivity.
  - unfold ret. rewrite app_nil_r. reflexivity.
Qed.

Lemma for_range_trench rest : ∀ done tr n,
  for_range trench_body (length done) (length rest)
    (mkState (done ++ rest) tr n) =
  (mkState (done ++ (trench_advance <$> rest))
     (tr ++ concat (imap (fun k => trench_calls (length done + k)) rest)) n,
   Ok tt).
Proof.
  induction rest as [|x rest IH]; intros done tr n; simpl.
  - rewrite !app_nil_r. reflexivity.
  - unfold bind. rewrite trench_body_focus.
    replace (done ++ trench_advance x :: rest)
      with ((done ++ [trench_advance x]) ++ rest)
      by (rewrite <- app_assoc; reflexivity).
    replace (S (length done)) with (length (done ++ [trench_advance x]))
      by (rewrite length_app; simpl; lia).
    rewrite IH. rewrite <- !app_assoc. simpl.
    rewrite Nat.add_0_r. do 5 f_equal.
    apply imap_ext; intros k y _. simpl.
    rewrite length_app; simpl. f_equal; lia.
Qed.

Lemma log_null_end_last (qs : list Lamella) tr n :
  final (log_null_end (last_index (length qs) None)) (mkState qs tr n) =
  mkState qs (tr ++ null_end_log qs) n.
Proof.
  unfold null_end_log, final.
  destruct (length qs) as [|m] eqn:Hlen; simpl.
  - apply length_zero_iff_nil in Hlen; subst qs. simpl.
    rewrite app_nil_r. reflexivity.
  - rewrite Nat.sub_0_r.
    unfold do_log_status_message, bind, get_position, emit; simpl.
    destruct (qs !! m) as [x|] eqn:E; simpl; [ reflexivity | ].
    apply lookup_ge_None in E. lia.
Qed.

Lemma run_trench_milling_final (ps : list Lamella) :
  final run_trench_milling (init ps) =
  mkState (trench_advance <$> ps)
    (concat (imap trench_calls ps) ++ null_end_log (trench_advance <$> ps)) 0.
Proof.
  pose proof (for_range_trench ps [] [] 0%nat) as H. simpl in H.
  change (fun k : nat => trench_calls k) with trench_calls in H.
  pose proof (log_null_end_last (trench_advance <$> ps)
                (concat (imap trench_calls ps)) 0%nat) as L.
  rewrite length_fmap in L. unfold final in L.
  unfold final, run_trench_milling, for_positions, init, bind, get_positions.
  simpl. rewrite H. unfold ret. exact L.
Qed.

(** C4.  [run_trench_milling] visits the positions in list order.  On a
    position whose stage is [PositionReady] and whose failure flag is
    unset it calls [start_of_stage_update] towards [MillTrench], then
    [mill_trench], then [end_of_stage_update], in that order; on every
    other position it calls nothing and the record stays as it was.  The
    calls made are those, position after position, followed by the
    closing log line. *)
Theorem run_trench_milling_advances_ready_positions (ps : list Lamella) :
  let st' := final run_trench_milling (init ps) in
  positions st' = trench_advance <$> ps ∧
  trace st' = concat (imap trench_calls ps) ++ null_end_log (trench_advance <$> ps).
Proof.
  intros st'. subst st'. rewrite run_trench_milling_final. split; reflexivity.
Qed.

(** C9.  On an experiment without positions the loops bind nothing to
    [lamella], and the closing [log_status_message(lamella, ...)] raises
    an unbound-variable error: [run_trench_milling], [run_setup_lamella]
    and [run_lamella_milling] then do not return the experiment. *)
Theorem empty_positions_raise_unbound_local
    (stages_to_complete : list AutoLamellaStage) (tr : list Call) (n : nat) :
  let st := mkState [] tr n in
  outcome run_trench_milling st = Raise UnboundLocalError ∧
  outcome run_setup_lamella st = Raise UnboundLocalError ∧
  outcome (run_lamella_milling stages_to_complete) st = Raise UnboundLocalError.
Proof.
  intros st. subst st. split; [ reflexivity | split; [ reflexivity | ] ].
  assert (H : ∀ stages lamella,
             milling_stages stages stages_to_complete lamella (mkState [] tr n)
             = (mkState [] tr n, Ok lamella)).
  { induction stages as [|stage rest IH]; intros lamella; simpl; [ reflexivity | ].
    destruct (bool_decide _); [ | apply IH ].
    unfold bind. simpl. apply IH. }
  unfold outcome, run_lamella_milling. unfold bind at 1.
  rewrite (H LAMELLA_MILLING_WORKFLOW None). reflexivity.
Qed.


(** *** Runs that only make calls of a given kind *)

Definition closed_under (ok : Call → Prop) (P : list Call → Prop) : Prop :=
  ∀ tr c, ok c → P tr → P (tr ++ [c]).

Definition emits_only {A} (ok : Call → Prop) (c : M A) : Prop :=
  ∀ P, closed_under ok P → preserves (trace_inv P) c.

Lemma emits_only_ret {A} ok (a : A) : emits_only ok (ret a).
Proof. intros P _. apply preserves_ret. Qed.

Lemma emits_only_raise {A} ok e : emits_only ok (raise (A:=A) e).
Proof. intros P _. apply preserves_raise. Qed.

Lemma emits_only_bind {A B} ok (c : M A) (k : A → M B) :
  emits_only ok c → (∀ a, emits_only ok (k a)) → emits_only ok (bind c k).
Proof.
  intros Hc Hk P HP. apply preserves_bind; [ apply Hc, HP | intros a; apply Hk, HP ].
Qed.

Lemma emits_only_if {A} ok (b : bool) (c1 c2 : M A) :
  emits_only ok c1 → emits_only ok c2 → emits_only ok (if b then c1 else c2).
Proof. destruct b; auto. Qed.

Lemma emits_only_weaken {A} (ok ok' : Call → Prop) (c : M A) :
  (∀ x, ok x → ok' x) → emits_only ok c → emits_only ok' c.
Proof.
  intros Hw Hc P HP. apply Hc. intros tr x Hx. apply HP, Hw, Hx.
Qed.

Lemma emits_only_emit ok (c : Call) : ok c → emits_only ok (emit c).
Proof.
  intros Hc P HP. apply preserves_emit. intros st. apply HP, Hc.
Qed.

Lemma emits_only_get_position ok j : emits_only ok (get_position j).
Proof. intros P _. apply preserves_get_position. Qed.


Lemma emits_only_set_position ok j x : emits_only ok (set_position j x).
Proof. intros P _. apply preserves_set_position. intros st H; exact H. Qed.

Lemma emits_only_next_reply ok : emits_only ok next_reply.
Proof. intros P _. apply preserves_next_reply. intros st H; exact H. Qed.

Lemma emits_only_for_range ok (body : nat → M unit) :
  (∀ j, emits_only ok (body j)) → ∀ n i, emits_only ok (for_range body i n).
Proof.
  intros Hb n i P HP. apply preserves_for_range. intros j. apply Hb, HP.
Qed.

Lemma emits_only_for_positions ok (body : nat → M unit) before :
  (∀ j, emits_only ok (body j)) → emits_only ok (for_positions body before).
Proof.
  intros Hb P HP. apply preserves_for_positions. intros j. apply Hb, HP.
Qed.

Lemma emits_only_do_start ok j s r :
  (∀ x, ok (call_start_of_stage_update j x s r)) →
  emits_only ok (do_start_of_stage_update j s r).
Proof.
  intros H. unfold do_start_of_stage_update.
  apply emits_only_bind; [ apply emits_only_get_position | intros x ].
  apply emits_only_bind; [ apply emits_only_emit, H | intros _ ].
  apply emits_only_set_position.
Qed.

Lemma emits_only_do_stage_fn ok j fn :
  (∀ x, ok (call_stage_fn j x fn)) → emits_only ok (do_stage_fn j fn).
Proof.
  intros H. unfold do_stage_fn.
  apply emits_only_bind; [ apply emits_only_get_position | intros x ].
  apply emits_only_bind; [ apply emits_only_emit, H | intros _ ].
  apply emits_only_set_position.
Qed.

Lemma emits_only_do_end ok j save :
  (∀ x, ok (call_end_of_stage_update j x save)) →
  emits_only ok (do_end_of_stage_update j save).
Proof.
  intros H. unfold do_end_of_stage_update.
  apply emits_only_bind; [ apply emits_only_get_position | intros x ].
  apply emits_only_bind; [ apply emits_only_emit, H | intros _ ].
  apply emits_only_set_position.
Qed.

Lemma emits_only_do_log ok j msg :
  (∀ x, ok (call_log_status_message j x msg)) →
  emits_only ok (do_log_status_message j msg).
Proof.
  intros H. unfold do_log_status_message.
  apply emits_only_bind; [ apply emits_only_get_position | intros x ].
  apply emits_only_emit, H.
Qed.

Lemma emits_only_log_null_end ok lamella :
  (∀ j x msg, ok (call_log_status_message j x msg)) →
  emits_only ok (log_null_end lamella).
Proof.
  intros H. destruct lamella; simpl;
    [ apply emits_only_do_log; intros; apply H | apply emits_only_raise ].
Qed.


(** *** The guards and the order of attempts of [run_lamella_milling] *)

Definition milling_inv (k : nat) (tr : list Call) : Prop :=
  Forall milling_guard tr ∧
  StronglySorted attempted_before (entered tr) ∧
  Forall (fun s => (attempt_rank s ≤ k)%nat) (entered tr).

Lemma entered_snoc tr c :
  entered (tr ++ [c]) =
  entered tr ++ match entered_by c with Some s => [s] | None => [] end.
Proof.
  unfold entered. rewrite omap_app. simpl. destruct (entered_by c); reflexivity.
Qed.

Lemma StronglySorted_snoc {A} (R : A → A → Prop) (xs : list A) (x : A) :
  StronglySorted R xs → Forall (fun y => R y x) xs → StronglySorted R (xs ++ [x]).
Proof.
  induction 1 as [|y ys Hs IH Hy]; intros Hx; simpl.
  - repeat constructor.
  - apply Forall_cons in Hx as [Hyx Hx]. constructor; [ apply IH, Hx | ].
    apply Forall_app; split; [ exact Hy | apply Forall_singleton, Hyx ].
Qed.

Lemma milling_inv_other k : closed_under (fun c => entered_by c = None) (milling_inv k).
Proof.
  intros tr c Hc (Hg & Hs & Hk). unfold milling_inv.
  rewrite entered_snoc, Hc, app_nil_r. repeat split; try assumption.
  apply Forall_app; split; [ exact Hg | apply Forall_singleton ].
  destruct c; simpl in *; try exact I. discriminate.
Qed.

Lemma milling_inv_start k tr j x s r :
  milling_inv k tr → milling_guard (call_start_of_stage_update j x s r) →
  attempt_rank s = k →
  milling_inv k (tr ++ [call_start_of_stage_update j x s r]).
Proof.
  intros (Hg & Hs & Hk) Hx Hr. unfold milling_inv.
  rewrite entered_snoc; simpl. repeat split.
  - apply Forall_app; split; [ exact Hg | apply Forall_singleton, Hx ].
  - apply StronglySorted_snoc; [ exact Hs | ].
    unfold attempted_before. rewrite Hr. exact Hk.
  - apply Forall_app; split; [ exact Hk | apply Forall_singleton; lia ].
Qed.

Lemma milling_inv_mono k k' tr :
  (k ≤ k')%nat → milling_inv k tr → milling_inv k' tr.
Proof.
  intros Hle (Hg & Hs & Hk). repeat split; try assumption.
  eapply Forall_impl; [ exact Hk | ]. simpl; intros; lia.
Qed.

Lemma do_start_known j x s r st :
  positions st !! j = Some x →
  do_start_of_stage_update j s r st =
  (mkState (<[j:=start_of_stage_update x s r]> (positions st))
     (trace st ++ [call_start_of_stage_update j x s r]) (prompts st), Ok tt).
Proof.
  intros H. unfold do_start_of_stage_update, bind, get_position, emit, set_position.
  rewrite H. reflexivity.
Qed.

(** What a true [is_previous_completed] says about the record. *)
Lemma is_previous_completed_true stage lamella st st' :
  is_previous_completed stage lamella st = (st', Ok true) →
  match stage with
  | MillRough | SetupPolishing => value (workflow lamella) = value stage - 1
  | MillPolishing =>
      workflow lamella = MillRough ∨ workflow lamella = SetupPolishing
  | _ => False
  end.
Proof.
  unfold is_previous_completed.
  destruct (bool_decide (stage ∈ [MillRough; SetupPolishing])) eqn:E1.
  - apply bool_decide_eq_true in E1.
    destruct (stage_of_value (value stage - 1)) as [prev|] eqn:E2;
      [ | discriminate ].
    unfold ret. intros [= _ Hw]. apply bool_decide_eq_true in Hw.
    apply find_some in E2 as [_ Hv]. apply Z.eqb_eq in Hv.
    rewrite Hw, Hv.
    apply elem_of_cons in E1 as [->| E1]; [ reflexivity | ].
    apply elem_of_cons in E1 as [->| E1]; [ reflexivity | ].
    apply elem_of_nil in E1. contradiction.
  - destruct (bool_decide (stage = MillPolishing)) eqn:E2; [ | discriminate ].
    apply bool_decide_eq_true in E2. subst stage.
    unfold ret. intros [= _ Hw]. apply bool_decide_eq_true in Hw.
    apply elem_of_cons in Hw as [->| Hw]; [ left; reflexivity | ].
    apply elem_of_cons in Hw as [->| Hw]; [ right; reflexivity | ].
    apply elem_of_nil in Hw. contradiction.
Qed.

Lemma milling_body_inv stage j :
  preserves (trace_inv (milling_inv (attempt_rank stage))) (milling_body stage j).
Proof.
  apply preserves_read; intros lamella st HI Hl.
  unfold final, bind.
  pose proof (is_previous_completed_pure stage lamella st) as Hpure.
  pose proof (is_previous_completed_true stage lamella st) as Htrue.
  destruct (is_previous_completed stage lamella st) as [st' [previous|e]];
    simpl in Hpure; subst st'; [ | exact HI ].
  destruct (previous && negb (is_failure lamella)) eqn:Hg; [ | exact HI ].
  apply andb_true_iff in Hg as [-> Hf]. apply negb_true_iff in Hf.
  specialize (Htrue st eq_refl).
  rewrite (do_start_known j lamella stage true st Hl).
  assert (Hrest : emits_only (fun c => entered_by c = None)
                    (lamella0 <- get_position j ;;
                     match WORKFLOW_STAGES (workflow lamella0) with
                     | Some fn => do_stage_fn j fn ;;; do_end_of_stage_update j true
                     | None => raise KeyError
                     end)).
  { apply emits_only_bind; [ apply emits_only_get_position | intros x ].
    destruct (WORKFLOW_STAGES (workflow x)); [ | apply emits_only_raise ].
    apply emits_only_bind;
      [ apply emits_only_do_stage_fn; reflexivity
      | intros _; apply emits_only_do_end; reflexivity ]. }
  apply (Hrest _ (milling_inv_other (attempt_rank stage))).
  unfold trace_inv; simpl. apply milling_inv_start; [ exact HI | | reflexivity ].
  simpl. split; [ exact Hf | ].
  destruct stage; try contradiction; exact Htrue.
Qed.

Lemma finish_body_inv j : preserves (trace_inv (milling_inv 3)) (finish_body j).
Proof.
  apply preserves_read; intros lamella st HI Hl.
  destruct (_ && _) eqn:Hg; [ | exact HI ].
  apply andb_true_iff in Hg as [Hw Hf].
  apply bool_decide_eq_true in Hw. apply negb_true_iff in Hf.
  unfold final, bind.
  rewrite (do_start_known j lamella Finished false st Hl).
  apply (emits_only_do_end (fun c => entered_by c = None) j false
           (fun _ => eq_refl) _ (milling_inv_other 3)).
  unfold trace_inv; simpl. apply milling_inv_start; [ exact HI | | reflexivity ].
  simpl. split; assumption.
Qed.

(** The stages of a list are attempted in turn: each of rank at least
    [k], and the ranks ascending to at most [top]. *)
Fixpoint ascending (k top : nat) (stages : list AutoLamellaStage) : Prop :=
  match stages with
  | [] => (k ≤ top)%nat
  | s :: rest => (k ≤ attempt_rank s)%nat ∧ ascending (attempt_rank s) top rest
  end.

Lemma ascending_le k top stages : ascending k top stages → (k ≤ top)%nat.
Proof.
  revert k; induction stages as [|s rest IH]; intros k; simpl; [ auto | ].
  intros [H1 H2]. apply IH in H2. lia.
Qed.

Lemma milling_stages_inv top stages : ∀ k stages_to_complete lamella st,
  ascending k top stages →
  milling_inv k (trace st) →
  milling_inv top (trace (final (milling_stages stages stages_to_complete lamella) st)).
Proof.
  induction stages as [|stage rest IH]; intros k stc lamella st Hasc HI; simpl in *.
  - apply (milling_inv_mono k); assumption.
  - destruct Hasc as [Hk Hasc].
    destruct (bool_decide (stage ∈ stc)).
    + unfold final, bind.
      pose proof (preserves_for_positions _ _ lamella (milling_body_inv stage) st
                    (milling_inv_mono _ _ _ Hk HI)) as H1.
      unfold final in H1.
      destruct (for_positions (milling_body stage) lamella st) as [st1 [lam|e]];
        simpl in *.
      * apply (IH (attempt_rank stage)); assumption.
      * apply (milling_inv_mono (attempt_rank stage));
          [ apply (ascending_le _ _ rest), Hasc | exact H1 ].
    + apply (IH k).
      * clear -Hk Hasc. destruct rest; simpl in *; [ lia | ].
        destruct Hasc; split; [ lia | assumption ].
      * exact HI.
Qed.

(** The guards and the order of attempts hold of every run. *)
Lemma run_lamella_milling_inv
    (stages_to_complete : list AutoLamellaStage) (ps : list Lamella) :
  milling_inv 3 (trace (final (run_lamella_milling stages_to_complete) (init ps))).
Proof.
  unfold run_lamella_milling, final, bind.
  pose proof (milling_stages_inv 2 LAMELLA_MILLING_WORKFLOW 0
                stages_to_complete None (init ps)) as H1.
  unfold final in H1.
  destruct (milling_stages LAMELLA_MILLING_WORKFLOW stages_to_complete None
              (init ps)) as [st1 [lam|e]]; simpl in *.
  - assert (H2 : milling_inv 3 (trace st1)).
    { apply (milling_inv_mono 2); [ lia | ]. apply H1; [ lia | ].
      repeat split; constructor. }
    pose proof (preserves_for_positions _ _ lam finish_body_inv st1 H2) as H3.
    unfold final in H3.
    destruct (for_positions finish_body lam st1) as [st2 [lam'|e]]; simpl in *;
      [ | exact H3 ].
    apply (emits_only_log_null_end (fun c => entered_by c = None) lam'
             (fun _ _ _ => eq_refl) _ (milling_inv_other 3)).
    exact H3.
  - apply (milling_inv_mono 2); [ lia | ]. apply H1; [ lia | ].
    repeat split; constructor.
Qed.


(** *** The calls each runner makes *)

(** A call into [workflows.core]: not a prompt, and if it enters a
    position into a stage, the stage is one of [S]. *)
Definition core_call (S : AutoLamellaStage → Prop) (c : Call) : Prop :=
  is_prompt c = false ∧ ∀ s, entered_by c = Some s → S s.

Lemma core_call_start S j x s r :
  S s → core_call S (call_start_of_stage_update j x s r).
Proof. intros H; split; [ reflexivity | intros s' [= <-]; exact H ]. Qed.

Lemma core_call_plain S c :
  is_prompt c = false → entered_by c = None → core_call S c.
Proof. intros H1 H2; split; [ exact H1 | rewrite H2; discriminate ]. Qed.


Lemma emits_log_null_end S lamella : emits_only (core_call S) (log_null_end lamella).
Proof.
  apply emits_only_log_null_end; intros; apply core_call_plain; reflexivity.
Qed.




Lemma emits_is_previous_completed ok stage lamella :
  emits_only ok (is_previous_completed stage lamella).
Proof.
  unfold is_previous_completed.
  apply emits_only_if.
  - destruct (stage_of_value _); [ apply emits_only_ret | apply emits_only_raise ].
  - apply emits_only_if; [ apply emits_only_ret | apply emits_only_raise ].
Qed.





(** Calls of any sort, prompts included, that enter positions into stages
    of [S] only. *)
Definition any_call (S : AutoLamellaStage → Prop) (c : Call) : Prop :=
  ∀ s, entered_by c = Some s → S s.


Lemma any_call_mono (S S' : AutoLamellaStage → Prop) c :
  (∀ s, S s → S' s) → any_call S c → any_call S' c.
Proof. intros HS H s Hs. apply HS, H, Hs. Qed.

Lemma ask_user_run position msg st :
  ask_user position msg st =
  (mkState (positions st)
     (trace st ++ [call_ask_user position msg (reply (prompts st))])
     (S (prompts st)),
   Ok (reply (prompts st))).
Proof. reflexivity. Qed.

Lemma ask_user_continue_workflow_run msg validate st :
  ask_user_continue_workflow msg validate st =
  (mkState (positions st)
     (trace st ++
        [call_ask_user_continue_workflow msg validate (reply (prompts st))])
     (S (prompts st)),
   Ok (reply (prompts st))).
Proof. reflexivity. Qed.







(** *** Gates: a class of calls made only after a go-ahead *)

Section Gate.

Variable S : AutoLamellaStage → Prop.
Variable g : Call.
Hypothesis g_enters_nothing : entered_by g = None.











End Gate.


(** *** Declining a prompt ends the run *)





















(** *** The two gates *)













(** *** Loops whose body works on the visited position alone *)

Section Pointwise.

Variable body : nat → M unit.
Variable advance : Lamella → Lamella.
Variable calls : nat → Lamella → list Call.

Hypothesis body_focus : ∀ done x rest tr n,
  body (length done) (mkState (done ++ x :: rest) tr n) =
  (mkState (done ++ advance x :: rest) (tr ++ calls (length done) x) n, Ok tt).

Lemma for_range_pointwise rest : ∀ done tr n,
  for_range body (length done) (length rest) (mkState (done ++ rest) tr n) =
  (mkState (done ++ (advance <$> rest))
     (tr ++ concat (imap (fun k => calls (length done + k)) rest)) n,
   Ok tt).
Proof.
  induction rest as [|x rest IH]; intros done tr n; simpl.
  - rewrite !app_nil_r. reflexivity.
  - unfold bind. rewrite body_focus.
    replace (done ++ advance x :: rest) with ((done ++ [advance x]) ++ rest)
      by (rewrite <- app_assoc; reflexivity).
    replace (S (length done)) with (length (done ++ [advance x]))
      by (rewrite length_app; simpl; lia).
    rewrite IH. rewrite <- !app_assoc. simpl.
    rewrite Nat.add_0_r. do 5 f_equal.
    apply imap_ext; intros k y _. simpl.
    rewrite length_app; simpl. f_equal; lia.
Qed.

Lemma for_positions_pointwise ps tr n before :
  for_positions body before (mkState ps tr n) =
  (mkState (advance <$> ps) (tr ++ concat (imap calls ps)) n,
   Ok (last_index (length ps) before)).
Proof.
  pose proof (for_range_pointwise ps [] tr n) as H. simpl in H.
  change (fun k : nat => calls k) with calls in H.
  unfold for_positions, bind, get_positions. simpl. rewrite H. reflexivity.
Qed.

End Pointwise.

(** How the closing log line ends a run. *)
Lemma log_null_end_run (qs : list Lamella) tr n :
  log_null_end (last_index (length qs) None) (mkState qs tr n) =
  (mkState qs (tr ++ null_end_log qs) n,
   match qs with [] => Raise UnboundLocalError | _ :: _ => Ok tt end).
Proof.
  unfold null_end_log.
  destruct qs as [|q qs'] eqn:Eq; [ simpl; rewrite app_nil_r; reflexivity | ].
  rewrite <- Eq. assert (Hlen : length qs = S (length qs')) by (subst; reflexivity).
  rewrite Hlen. simpl. rewrite Nat.sub_0_r.
  unfold do_log_status_message, bind, get_position, emit; simpl.
  destruct (qs !! length qs') as [x|] eqn:E; simpl; [ reflexivity | ].
  apply lookup_ge_None in E. lia.
Qed.

(** *** [run_undercut_milling], position by position *)

Definition undercut_ready (lamella : Lamella) : bool :=
  bool_decide (workflow lamella = MillTrench) && negb (is_failure lamella).

Definition undercut_advance (lamella : Lamella) : Lamella :=
  if undercut_ready lamella then
    end_of_stage_update
      (stage_effect mill_undercut
         (start_of_stage_update lamella MillUndercut true))
      true
  else lamella.

Definition undercut_calls (i : nat) (lamella : Lamella) : list Call :=
  (if undercut_ready lamella then
     let started := start_of_stage_update lamella MillUndercut true in
     let milled := stage_effect mill_undercut started in
     [call_start_of_stage_update i lamella MillUndercut true;
      call_stage_fn i started mill_undercut;
      call_end_of_stage_update i milled true]
   else []) ++
  [call_log_status_message i (undercut_advance lamella) "NULL_END"].

Lemma do_log_focus done x rest tr n msg :
  do_log_status_message (length done) msg (mkState (done ++ x :: rest) tr n) =
  (mkState (done ++ x :: rest)
     (tr ++ [call_log_status_message (length done) x msg]) n, Ok tt).
Proof.
  unfold do_log_status_message, bind, get_position, emit; simpl.
  rewrite lookup_focus. reflexivity.
Qed.

Lemma undercut_body_focus done x rest tr n :
  undercut_body (length done) (mkState (done ++ x :: rest) tr n) =
  (mkState (done ++ undercut_advance x :: rest)
     (tr ++ undercut_calls (length done) x) n, Ok tt).
Proof.
  unfold undercut_body, undercut_calls, undercut_advance, undercut_ready.
  unfold bind at 1. unfold get_position at 1. simpl. rewrite lookup_focus.
  destruct (_ && _).
  - unfold bind. rewrite do_start_focus, do_stage_fn_focus, do_end_focus.
    rewrite do_log_focus. rewrite <- !app_assoc. reflexivity.
  - unfold bind, ret. rewrite do_log_focus. reflexivity.
Qed.

(** X1.  [run_undercut_milling] always returns the experiment, also when
    there are no positions: its log line is written inside the loop.  It
    visits the positions in order, advances the ones at [MillTrench] whose
    failure flag is unset through start, [mill_undercut] and end, and
    writes the NULL_END line for every position, failed ones included. *)
Theorem run_undercut_milling_returns (ps : list Lamella) :
  run_undercut_milling (init ps) =
  (mkState (undercut_advance <$> ps) (concat (imap undercut_calls ps)) 0, Ok tt).
Proof.
  unfold run_undercut_milling, init. unfold bind.
  rewrite (for_positions_pointwise undercut_body undercut_advance undercut_calls
             undercut_body_focus). reflexivity.
Qed.

(** *** [run_setup_lamella], position by position *)

Definition setup_ready (lamella : Lamella) : bool :=
  bool_decide (workflow lamella ∈ [PositionReady; MillUndercut; LandLamella])
  && negb (is_failure lamella).

Definition setup_advance (lamella : Lamella) : Lamella :=
  if setup_ready lamella then
    end_of_stage_update
      (stage_effect setup_lamella
         (start_of_stage_update lamella SetupLamella true))
      true
  else lamella.

Definition setup_calls (i : nat) (lamella : Lamella) : list Call :=
  if setup_ready lamella then
    let started := start_of_stage_update lamella SetupLamella true in
    let done := stage_effect setup_lamella started in
    [call_start_of_stage_update i lamella SetupLamella true;
     call_stage_fn i started setup_lamella;
     call_end_of_stage_update i done true]
  else [].

Lemma setup_body_focus done x rest tr n :
  setup_body (length done) (mkState (done ++ x :: rest) tr n) =
  (mkState (done ++ setup_advance x :: rest)
     (tr ++ setup_calls (length done) x) n, Ok tt).
Proof.
  unfold setup_body, setup_advance, setup_calls, setup_ready.
  unfold bind at 1. unfold get_position at 1. simpl. rewrite lookup_focus.
  destruct (_ && _).
  - unfold bind. rewrite do_start_focus, do_stage_fn_focus, do_end_focus.
    rewrite <- !app_assoc. reflexivity.
  - unfold ret. rewrite app_nil_r. reflexivity.
Qed.

(** X2.  [run_setup_lamella] advances into [SetupLamella] exactly the
    positions that are at [PositionReady], [MillUndercut] or [LandLamella]
    with the failure flag unset, in list order, each through start,
    [setup_lamella] and end; it then writes the NULL_END line for the last
    position and returns, or raises the unbound-variable error when there
    is no position. *)
Theorem run_setup_lamella_run (ps : list Lamella) :
  run_setup_lamella (init ps) =
  (mkState (setup_advance <$> ps)
     (concat (imap setup_calls ps) ++ null_end_log (setup_advance <$> ps)) 0,
   match ps with [] => Raise UnboundLocalError | _ :: _ => Ok tt end).
Proof.
  unfold run_setup_lamella, init. unfold bind.
  rewrite (for_positions_pointwise setup_body setup_advance setup_calls
             setup_body_focus). simpl.
  pose proof (log_null_end_run (setup_advance <$> ps)
                (concat (imap setup_calls ps)) 0%nat) as L.
  rewrite length_fmap in L. rewrite L. destruct ps; reflexivity.
Qed.

(** X3.  [run_trench_milling] returns the experiment exactly when there is
    at least one position; otherwise it raises the unbound-variable
    error. *)
Theorem run_trench_milling_returns_iff_positions (ps : list Lamella) :
  (outcome run_trench_milling (init ps) = Ok tt ↔ ps ≠ []) ∧
  (outcome run_trench_milling (init ps) = Raise UnboundLocalError ↔ ps = []).
Proof.
  assert (E : outcome run_trench_milling (init ps) =
              match ps with [] => Raise UnboundLocalError | _ :: _ => Ok tt end).
  { unfold outcome, run_trench_milling, init. unfold bind.
    rewrite (for_positions_pointwise trench_body trench_advance trench_calls
               trench_body_focus). simpl.
    pose proof (log_null_end_run (trench_advance <$> ps)
                  (concat (imap trench_calls ps)) 0%nat) as L.
    rewrite length_fmap in L. rewrite L. destruct ps; reflexivity. }
  rewrite E. destruct ps; split; split; congruence.
Qed.

(** *** Which stages [run_lamella_milling] enters, and which function it calls *)

Lemma Forall_closed (ok : Call → Prop) : closed_under ok (Forall ok).
Proof.
  intros tr c Hc H. apply Forall_app; split; [ exact H | apply Forall_singleton, Hc ].
Qed.

Lemma emits_milling_body_in (S : AutoLamellaStage → Prop) stage j :
  S stage → emits_only (core_call S) (milling_body stage j).
Proof.
  intros Hs. unfold milling_body.
  apply emits_only_bind; [ apply emits_only_get_position | intros x ].
  apply emits_only_bind; [ apply emits_is_previous_completed | intros previous ].
  apply emits_only_if; [ | apply emits_only_ret ].
  apply emits_only_bind;
    [ apply emits_only_do_start; intros; apply core_call_start, Hs | intros _ ].
  apply emits_only_bind; [ apply emits_only_get_position | intros y ].
  destruct (WORKFLOW_STAGES (workflow y)); [ | apply emits_only_raise ].
  apply emits_only_bind;
    [ apply emits_only_do_stage_fn; intros; apply core_call_plain; reflexivity
    | intros _ ].
  apply emits_only_do_end; intros; apply core_call_plain; reflexivity.
Qed.

Lemma emits_milling_stages_in stages_to_complete stages : ∀ lamella,
  emits_only
    (core_call (fun s => s ∈ stages_to_complete ∧ s ∈ stages))
    (milling_stages stages stages_to_complete lamella).
Proof.
  induction stages as [|stage rest IH]; intros lamella; simpl.
  - apply emits_only_ret.
  - assert (Hrest : ∀ lam, emits_only
              (core_call (fun s => s ∈ stages_to_complete ∧ s ∈ stage :: rest))
              (milling_stages rest stages_to_complete lam)).
    { intros lam. eapply emits_only_weaken; [ | apply IH ].
      intros c [Hp Hc]. split; [ exact Hp | ]. intros s Hs.
      destruct (Hc s Hs) as [H1 H2]. split; [ exact H1 | ].
      apply list_elem_of_further, H2. }
    destruct (bool_decide (stage ∈ stages_to_complete)) eqn:E; [ | apply Hrest ].
    apply bool_decide_eq_true in E.
    apply emits_only_bind; [ | intros lamella'; apply Hrest ].
    apply emits_only_for_positions; intros j. apply emits_milling_body_in.
    split; [ exact E | apply list_elem_of_here ].
Qed.


(** [c], made when the calls [pre] had been made, is dispatched through
    the table if it is a stage function call: the call just before it is
    [start_of_stage_update] on the same position towards a stage of
    [LAMELLA_MILLING_WORKFLOW], the function is called on the record that
    call left, and it is the entry of [WORKFLOW_STAGES] for the stage
    this record shows. *)
Definition dispatched (pre : list Call) (c : Call) : Prop :=
  match c with
  | call_stage_fn i lamella fn =>
      ∃ pre' before stage,
        pre = pre' ++ [call_start_of_stage_update i before stage true] ∧
        stage ∈ LAMELLA_MILLING_WORKFLOW ∧
        lamella = start_of_stage_update before stage true ∧
        WORKFLOW_STAGES (workflow lamella) = Some fn
  | _ => True
  end.

Definition all_dispatched (tr : list Call) : Prop :=
  ∀ pre c post, tr = pre ++ c :: post → dispatched pre c.

Lemma do_stage_fn_known j x fn st :
  positions st !! j = Some x →
  do_stage_fn j fn st =
  (mkState (<[j:=stage_effect fn x]> (positions st))
     (trace st ++ [call_stage_fn j x fn]) (prompts st), Ok tt).
Proof.
  intros H. unfold do_stage_fn, bind, get_position, emit, set_position.
  rewrite H. reflexivity.
Qed.

Definition not_stage_fn (c : Call) : Prop :=
  match c with call_stage_fn _ _ _ => False | _ => True end.

Lemma all_dispatched_snoc tr c :
  all_dispatched tr → dispatched tr c → all_dispatched (tr ++ [c]).
Proof.
  intros H Hc pre c' post E.
  induction post as [|x post _] using rev_ind.
  - apply app_inj_tail in E as [-> ->]. exact Hc.
  - rewrite app_comm_cons, app_assoc in E.
    apply app_inj_tail in E as [E _]. exact (H pre c' post E).
Qed.

Lemma all_dispatched_closed : closed_under not_stage_fn all_dispatched.
Proof.
  intros tr c Hc H. apply all_dispatched_snoc; [ exact H | ].
  destruct c; simpl in *; try exact I. contradiction.
Qed.

Lemma all_dispatched_milling_body stage j :
  stage ∈ LAMELLA_MILLING_WORKFLOW →
  preserves (trace_inv all_dispatched) (milling_body stage j).
Proof.
  intros Hin. apply preserves_read; intros lamella st HI Hl.
  unfold final, bind.
  pose proof (is_previous_completed_pure stage lamella st) as Hpure.
  destruct (is_previous_completed stage lamella st) as [st' [previous|e]];
    simpl in Hpure; subst st'; [ | exact HI ].
  destruct (previous && negb (is_failure lamella)); [ | exact HI ].
  rewrite (do_start_known j lamella stage true st Hl).
  assert (Hstart : all_dispatched
                     (trace st ++ [call_start_of_stage_update j lamella stage true])).
  { apply all_dispatched_snoc; [ exact HI | exact I ]. }
  assert (Hx : <[j:=start_of_stage_update lamella stage true]> (positions st) !! j
               = Some (start_of_stage_update lamella stage true)).
  { apply list_lookup_insert_eq. apply lookup_lt_Some in Hl. exact Hl. }
  unfold get_position at 1. cbn [positions]. rewrite Hx.
  destruct (WORKFLOW_STAGES (workflow (start_of_stage_update lamella stage true)))
    as [fn|] eqn:E; [ | exact Hstart ].
  rewrite (do_stage_fn_known j (start_of_stage_update lamella stage true) fn
             (mkState (<[j:=start_of_stage_update lamella stage true]> (positions st))
                (trace st ++ [call_start_of_stage_update j lamella stage true])
                (prompts st)) Hx).
  apply (emits_only_do_end not_stage_fn j true (fun _ => I) _ all_dispatched_closed).
  unfold trace_inv; simpl. apply all_dispatched_snoc; [ exact Hstart | ].
  exists (trace st), lamella, stage. repeat split; assumption.
Qed.

Lemma all_dispatched_milling_stages stages_to_complete stages : ∀ lamella,
  Forall (fun stage => stage ∈ LAMELLA_MILLING_WORKFLOW) stages →
  preserves (trace_inv all_dispatched)
    (milling_stages stages stages_to_complete lamella).
Proof.
  induction stages as [|stage rest IH]; intros lamella Hall; simpl.
  - apply preserves_ret.
  - apply Forall_cons in Hall as [Hs Hall].
    apply preserves_if; [ | apply IH, Hall ].
    apply preserves_bind; [ | intros lamella'; apply IH, Hall ].
    apply preserves_for_positions. intros j.
    apply all_dispatched_milling_body, Hs.
Qed.

(** X5.  In [run_lamella_milling] a stage function is only ever called
    right after [start_of_stage_update] on the same position, towards one
    of the three stages of [LAMELLA_MILLING_WORKFLOW]; it is called on
    the record that call left and is the entry of [WORKFLOW_STAGES] for
    the stage this record shows -- the table is indexed by
    [lamella.workflow], not by the stage of the loop.  The call that
    follows a [start_of_stage_update] towards [Finished] is never a stage
    function. *)
Theorem run_lamella_milling_dispatches_by_table
    (stages_to_complete : list AutoLamellaStage) (ps : list Lamella) :
  let tr := trace (final (run_lamella_milling stages_to_complete) (init ps)) in
  (∀ pre c post, tr = pre ++ c :: post → dispatched pre c) ∧
  (∀ pre i before r c post,
     tr = pre ++ call_start_of_stage_update i before Finished r :: c :: post →
     not_stage_fn c).
Proof.
  intros tr.
  assert (H : all_dispatched tr).
  { assert (P : preserves (trace_inv all_dispatched)
                  (run_lamella_milling stages_to_complete)).
    { apply preserves_bind; [ | intros lamella ].
      - apply all_dispatched_milling_stages. unfold LAMELLA_MILLING_WORKFLOW.
        repeat (apply Forall_cons; split; [ in_list | ]). apply Forall_nil_2.
      - apply preserves_bind.
        + apply preserves_for_positions; intros j.
          apply preserves_bind; [ apply preserves_get_position | intros x ].
          apply preserves_if; [ | apply preserves_ret ].
          apply preserves_bind;
            [ apply (emits_only_do_start not_stage_fn j Finished false
                       (fun _ => I) _ all_dispatched_closed)
            | intros _ ].
          apply (emits_only_do_end not_stage_fn j false (fun _ => I) _
                   all_dispatched_closed).
        + intros lam. apply (emits_only_log_null_end not_stage_fn lam
                               (fun _ _ _ => I) _ all_dispatched_closed). }
    apply P. intros pre c post E. destruct pre; discriminate E. }
  split; [ exact H | ].
  intros pre i before r c post E.
  assert (Hc : dispatched (pre ++ [call_start_of_stage_update i before Finished r]) c).
  { apply (H _ c post). rewrite E, <- app_assoc. reflexivity. }
  destruct c; try exact I. simpl in Hc.
  destruct Hc as (pre' & before' & stage & E' & Hin & _).
  apply app_inj_tail in E' as [_ E']. injection E' as _ _ <- _.
  unfold LAMELLA_MILLING_WORKFLOW in Hin.
  repeat (apply elem_of_cons in Hin as [Hin | Hin]; [ discriminate Hin | ]).
  apply elem_of_nil in Hin. exact Hin.
Qed.

(** *** The method runners skip failed positions too *)

Lemma skipped_next (i : nat) (l : Lamella) (c : Call) st :
  works_on i c = false → skipped i l st →
  skipped i l (mkState (positions st) (trace st ++ [c]) (S (prompts st))).
Proof.
  intros Hc [Hp Ht]; split; simpl; [ exact Hp | ].
  apply Forall_app; split; [ exact Ht | apply Forall_singleton, Hc ].
Qed.

Lemma skipped_ask_user (i : nat) (l : Lamella) msg :
  preserves (skipped i l) (ask_user None msg).
Proof.
  intros st H. unfold final. rewrite ask_user_run; simpl.
  apply skipped_next; [ reflexivity | exact H ].
Qed.

Lemma skipped_ask_user_continue_workflow (i : nat) (l : Lamella) msg validate :
  preserves (skipped i l) (ask_user_continue_workflow msg validate).
Proof.
  intros st H. unfold final. rewrite ask_user_continue_workflow_run; simpl.
  apply skipped_next; [ reflexivity | exact H ].
Qed.

Lemma skipped_run_autolamella (i : nat) (l : Lamella) stages_to_complete :
  is_failure l = true →
  preserves (skipped i l) (run_autolamella stages_to_complete).
Proof.
  intros Hf. apply preserves_bind; [ | intros go_on ].
  - apply preserves_if; [ | apply preserves_ret ].
    apply preserves_bind; [ apply skipped_run_setup_lamella, Hf | intros _ ].
    apply preserves_if; [ apply skipped_ask_user | apply preserves_ret ].
  - apply preserves_if; [ apply skipped_run_lamella_milling, Hf | apply preserves_ret ].
Qed.

Lemma skipped_run_autolamella_waffle (i : nat) (l : Lamella) stages_to_complete :
  is_failure l = true →
  preserves (skipped i l) (run_autolamella_waffle stages_to_complete).
Proof.
  intros Hf. apply preserves_bind; [ | intros _ ].
  { apply preserves_bind; [ apply preserves_get_positions | intros ps ].
    apply preserves_if; [ apply skipped_run_trench_milling, Hf | apply preserves_ret ]. }
  apply preserves_bind; [ | intros go_on ].
  { apply preserves_bind; [ apply preserves_get_positions | intros ps ].
    apply preserves_if; [ | apply preserves_ret ].
    apply preserves_bind; [ apply skipped_ask_user_continue_workflow | intros go_on ].
    apply preserves_if; [ | apply preserves_ret ].
    apply preserves_bind;
      [ apply skipped_run_undercut_milling, Hf | intros _; apply preserves_ret ]. }
  apply preserves_if; [ | apply preserves_ret ].
  apply preserves_bind; [ | intros go_on' ].
  { apply preserves_bind; [ apply preserves_get_positions | intros ps ].
    apply preserves_if;
      [ apply skipped_ask_user_continue_workflow | apply preserves_ret ]. }
  apply preserves_if; [ apply skipped_run_autolamella, Hf | apply preserves_ret ].
Qed.

(** X6.  The method runners [run_autolamella] and [run_autolamella_waffle]
    skip a position whose failure flag is set when they start: through
    all their stages and prompts no stage function is called on it and
    its record stays as it was. *)
Theorem method_runners_skip_failed_positions
    (stages_to_complete : list AutoLamellaStage) :
  skips_failed (run_autolamella stages_to_complete) ∧
  skips_failed (run_autolamella_waffle stages_to_complete).
Proof.
  split; intros ps i l Hl Hf.
  - apply (skipped_run_autolamella i l _ Hf), skipped_init, Hl.
  - apply (skipped_run_autolamella_waffle i l _ Hf), skipped_init, Hl.
Qed.

(** *** [run_spot_burn_workflow], position by position *)

Definition spot_burn_visit (i : nat) : list Call :=
  [call_safe_absolute_stage_movement i;
   call_take_reference_images i "ref_spot_burn_start";
   call_set_images_ui i;
   call_ask_user (Some i)
     "Run the spot burn workflow. Press continue when finished." (reply i)].

Definition spot_burn_finish (i : nat) : list Call :=
  [call_take_reference_images i "ref_spot_burn_end"; call_set_images_ui i].

(** The calls made from position [i] on, when [n] positions remain. *)
Fixpoint spot_burn_trace (i n : nat) : list Call :=
  match n with
  | O => []
  | S n' =>
      spot_burn_visit i ++
      (if reply i then spot_burn_finish i ++ spot_burn_trace (S i) n' else [])
  end.

Lemma for_range_break_spot_burn (ps : list Lamella) : ∀ n i tr,
  ∃ m, for_range_break spot_burn_body i n (mkState ps tr i) =
       (mkState ps (tr ++ spot_burn_trace i n) m, Ok tt).
Proof.
  induction n as [|n IH]; intros i tr; simpl.
  - exists i. rewrite app_nil_r. reflexivity.
  - unfold bind at 1. unfold spot_burn_body at 1.
    unfold bind, emit, ask_user, next_reply; simpl.
    destruct (reply i) eqn:E; simpl.
    + match goal with
      | |- context [for_range_break _ _ _ (mkState _ ?t _)] =>
          destruct (IH (S i) t) as [m Hm]
      end.
      exists m. rewrite Hm. unfold spot_burn_visit, spot_burn_finish.
      rewrite <- !app_assoc. reflexivity.
    + exists (S i). unfold spot_burn_visit.
      rewrite <- !app_assoc. simpl. rewrite ?app_nil_r. reflexivity.
Qed.

Lemma spot_burn_visit_on (i k : nat) :
  Exists (fun c => on_position c = Some k) (spot_burn_visit i) ↔ i = k.
Proof.
  unfold spot_burn_visit. rewrite !Exists_cons, Exists_nil. simpl.
  split; [ intros [H | [H | [H | [H | []]]]]; congruence | intros ->; left; reflexivity ].
Qed.

Lemma spot_burn_finish_on (i k : nat) :
  Exists (fun c => on_position c = Some k) (spot_burn_finish i) ↔ i = k.
Proof.
  unfold spot_burn_finish. rewrite !Exists_cons, Exists_nil. simpl.
  split; [ intros [H | [H | []]]; congruence | intros ->; left; reflexivity ].
Qed.

Lemma spot_burn_trace_on (k : nat) : ∀ n i,
  Exists (fun c => on_position c = Some k) (spot_burn_trace i n) ↔
  (i ≤ k < i + n)%nat ∧ ∀ j, (i ≤ j < k)%nat → reply j = true.
Proof.
  induction n as [|n IH]; intros i.
  - simpl. rewrite Exists_nil. split; [ contradiction | intros [H _]; lia ].
  - change (spot_burn_trace i (S n))
      with (spot_burn_visit i ++
            (if reply i then spot_burn_finish i ++ spot_burn_trace (S i) n
             else [])).
    rewrite Exists_app, spot_burn_visit_on.
    destruct (reply i) eqn:E.
    + rewrite Exists_app, spot_burn_finish_on, IH. split.
      * intros [<- | [<- | [H1 H2]]].
        -- split; [ lia | intros j Hj; lia ].
        -- split; [ lia | intros j Hj; lia ].
        -- split; [ lia | ]. intros j Hj.
           destruct (decide (j = i)) as [-> | Hne]; [ exact E | apply H2; lia ].
      * intros [H1 H2]. destruct (decide (i = k)) as [-> | Hne]; [ left; reflexivity | ].
        right; right. split; [ lia | intros j Hj; apply H2; lia ].
    + rewrite Exists_nil. split.
      * intros [<- | []]. split; [ lia | intros j Hj; lia ].
      * intros [H1 H2]. left. destruct (decide (i = k)) as [-> | Hne]; [ reflexivity | ].
        rewrite (H2 i) in E; [ discriminate | lia ].
Qed.

(** X7.  [run_spot_burn_workflow] always returns and changes no position
    record.  It visits the positions in list order, whatever their
    failure flags, and stops at the first Exit: position [k] is moved to,
    imaged and prompted for exactly when every earlier prompt was
    answered Continue. *)
Theorem run_spot_burn_workflow_visits_until_exit (ps : list Lamella) :
  outcome run_spot_burn_workflow (init ps) = Ok tt ∧
  positions (final run_spot_burn_workflow (init ps)) = ps ∧
  ∀ k, Exists (fun c => on_position c = Some k)
         (trace (final run_spot_burn_workflow (init ps))) ↔
       (k < length ps)%nat ∧ ∀ j, (j < k)%nat → reply j = true.
Proof.
  destruct (for_range_break_spot_burn ps (length ps) 0%nat []) as [m Hm].
  unfold outcome, final, run_spot_burn_workflow, init, bind, get_positions.
  simpl. rewrite Hm. simpl. split; [ reflexivity | split; [ reflexivity | ] ].
  intros k. rewrite spot_burn_trace_on. split.
  - intros [H1 H2]. split; [ lia | intros j Hj; apply H2; lia ].
  - intros [H1 H2]. split; [ lia | intros j Hj; apply H2; lia ].
Qed.

(** *** Where the prompt of [run_autolamella] is made *)






(** *** The calls of a run that concern one position *)

Definition calls_on (i : nat) (tr : list Call) : list Call :=
  filter (fun c => on_position c = Some i) tr.

Lemma calls_on_app (i : nat) (a b : list Call) :
  calls_on i (a ++ b) = calls_on i a ++ calls_on i b.
Proof. apply filter_app. Qed.

Lemma entered_app (a b : list Call) : entered (a ++ b) = entered a ++ entered b.
Proof. apply omap_app. Qed.

Lemma calls_on_same (k i : nat) (l : list Call) :
  Forall (fun c => on_position c = Some k) l →
  calls_on i l = if decide (k = i) then l else [].
Proof.
  induction 1 as [|c l Hc _ IH]; [ destruct (decide _); reflexivity | ].
  unfold calls_on in *. rewrite filter_cons, IH.
  destruct (decide (k = i)) as [-> | Hne].
  - rewrite decide_True by exact Hc. reflexivity.
  - rewrite decide_False; [ reflexivity | rewrite Hc; congruence ].
Qed.

(** In a loop whose body at [k] makes calls on position [k] only, the
    calls on position [j] are the ones of the body at [j]. *)
Lemma calls_on_concat_imap (ps : list Lamella) :
  ∀ (calls : nat → Lamella → list Call) (j off : nat),
  (∀ k x, Forall (fun c => on_position c = Some (off + k)%nat) (calls k x)) →
  calls_on j (concat (imap calls ps)) =
  if decide (off ≤ j)%nat
  then from_option (calls (j - off)%nat) [] (ps !! (j - off)%nat)
  else [].
Proof.
  induction ps as [|x ps IH]; intros calls j off H.
  - simpl. destruct (decide (off ≤ j)%nat); reflexivity.
  - rewrite imap_cons. simpl concat. rewrite calls_on_app.
    rewrite (calls_on_same (off + 0) j _ (H 0%nat x)).
    rewrite (IH (calls ∘ S) j (S off)).
    2:{ intros k y. simpl. replace (S (off + k)) with (off + S k)%nat by lia.
        apply H. }
    destruct (decide (off + 0 = j)%nat) as [E|E];
      destruct (decide (S off ≤ j)%nat); destruct (decide (off ≤ j)%nat);
      try lia.
    + replace (j - off)%nat with 0%nat by lia. simpl. rewrite app_nil_r.
      reflexivity.
    + replace (j - off)%nat with (S (j - S off)) by lia. reflexivity.
    + reflexivity.
Qed.

Lemma entered_null_end_log (i : nat) (qs : list Lamella) :
  entered (calls_on i (null_end_log qs)) = [].
Proof.
  unfold null_end_log. destruct (qs !! _); [ | reflexivity ].
  unfold calls_on. rewrite filter_cons. destruct (decide _); reflexivity.
Qed.

(** *** Progress of a position through [run_lamella_milling] *)

Section Progress.

(** Members of the enumeration have values of their own. *)
Hypothesis value_injective : ∀ s t, value s = value t → s = t.

(** The stage before [MillRough], and [SetupPolishing] right after it. *)
Variable prior : AutoLamellaStage.
Hypothesis prior_before_rough : value prior = value MillRough - 1.
Hypothesis polishing_after_rough : value MillRough = value SetupPolishing - 1.

(** Collaborators that record the stage on start and otherwise leave the
    stage and the failure flag alone. *)
Hypothesis start_sets_stage : ∀ l s r,
  workflow (start_of_stage_update l s r) = s.
Hypothesis start_keeps_flag : ∀ l s r,
  is_failure (start_of_stage_update l s r) = is_failure l.
Hypothesis stage_keeps : ∀ fn l,
  workflow (stage_effect fn l) = workflow l ∧
  is_failure (stage_effect fn l) = is_failure l.
Hypothesis end_keeps : ∀ l save,
  workflow (end_of_stage_update l save) = workflow l ∧
  is_failure (end_of_stage_update l save) = is_failure l.

Lemma stage_of_value_value (s : AutoLamellaStage) : stage_of_value (value s) = Some s.
Proof using value_injective.
  unfold stage_of_value.
  destruct (find (fun t => value t =? value s) all_stages) as [t|] eqn:E.
  - apply find_some in E as [_ E]. apply Z.eqb_eq in E.
    f_equal. apply value_injective, E.
  - exfalso.
    assert (Hin : In s all_stages)
      by (apply list_elem_of_In; unfold all_stages; destruct s; in_list).
    pose proof (find_none _ _ E s Hin) as H. simpl in H.
    rewrite Z.eqb_refl in H. discriminate.
Qed.

(** The stage a position must be at to enter [stage]. *)
Definition previous_completed (stage : AutoLamellaStage) (lamella : Lamella) : bool :=
  match stage with
  | MillRough => bool_decide (workflow lamella = prior)
  | SetupPolishing => bool_decide (workflow lamella = MillRough)
  | MillPolishing => bool_decide (workflow lamella ∈ [MillRough; SetupPolishing])
  | _ => false
  end.

Lemma is_previous_completed_run stage lamella st :
  stage ∈ LAMELLA_MILLING_WORKFLOW →
  is_previous_completed stage lamella st = (st, Ok (previous_completed stage lamella)).
Proof using value_injective prior_before_rough polishing_after_rough.
  intros Hin. unfold LAMELLA_MILLING_WORKFLOW in Hin.
  apply elem_of_cons in Hin as [-> | Hin];
    [ | apply elem_of_cons in Hin as [-> | Hin];
        [ | apply elem_of_cons in Hin as [-> | Hin];
            [ | apply elem_of_nil in Hin; contradiction ] ] ];
    unfold is_previous_completed; simpl.
  - rewrite <- prior_before_rough, stage_of_value_value. reflexivity.
  - rewrite <- polishing_after_rough, stage_of_value_value. reflexivity.
  - reflexivity.
Qed.

Definition milling_ready (stage : AutoLamellaStage) (lamella : Lamella) : bool :=
  previous_completed stage lamella && negb (is_failure lamella).

Definition table_fn (stage : AutoLamellaStage) : StageFn :=
  match WORKFLOW_STAGES stage with
  | Some fn => fn
  | None => mill_lamella
  end.

Definition milling_advance (stage : AutoLamellaStage) (lamella : Lamella) : Lamella :=
  if milling_ready stage lamella then
    end_of_stage_update
      (stage_effect (table_fn stage) (start_of_stage_update lamella stage true))
      true
  else lamella.

Definition milling_calls (stage : AutoLamellaStage) (i : nat) (lamella : Lamella)
  : list Call :=
  if milling_ready stage lamella then
    let started := start_of_stage_update lamella stage true in
    [call_start_of_stage_update i lamella stage true;
     call_stage_fn i started (table_fn stage);
     call_end_of_stage_update i (stage_effect (table_fn stage) started) true]
  else [].

Lemma milling_body_focus stage done x rest tr n :
  stage ∈ LAMELLA_MILLING_WORKFLOW →
  milling_body stage (length done) (mkState (done ++ x :: rest) tr n) =
  (mkState (done ++ milling_advance stage x :: rest)
     (tr ++ milling_calls stage (length done) x) n, Ok tt).
Proof using value_injective prior_before_rough polishing_after_rough
            start_sets_stage.
  intros Hin. unfold milling_body, milling_advance, milling_calls, milling_ready.
  unfold bind at 1. unfold get_position at 1. simpl. rewrite lookup_focus.
  unfold bind at 1. rewrite (is_previous_completed_run stage x _ Hin).
  destruct (_ && _).
  - unfold bind at 1. rewrite do_start_focus.
    unfold bind at 1. unfold get_position at 1. simpl. rewrite lookup_focus.
    rewrite start_sets_stage.
    assert (Hfn : WORKFLOW_STAGES stage = Some (table_fn stage)).
    { unfold LAMELLA_MILLING_WORKFLOW in Hin. unfold table_fn.
      apply elem_of_cons in Hin as [-> | Hin]; [ reflexivity | ].
      apply elem_of_cons in Hin as [-> | Hin]; [ reflexivity | ].
      apply elem_of_cons in Hin as [-> | Hin]; [ reflexivity | ].
      apply elem_of_nil in Hin; contradiction. }
    rewrite Hfn. unfold bind. rewrite do_stage_fn_focus, do_end_focus.
    rewrite <- !app_assoc. reflexivity.
  - unfold ret. rewrite app_nil_r. reflexivity.
Qed.

Definition finish_ready (lamella : Lamella) : bool :=
  bool_decide (workflow lamella = MillPolishing) && negb (is_failure lamella).

Definition finish_advance (lamella : Lamella) : Lamella :=
  if finish_ready lamella then
    end_of_stage_update (start_of_stage_update lamella Finished false) false
  else lamella.

Definition finish_calls (i : nat) (lamella : Lamella) : list Call :=
  if finish_ready lamella then
    [call_start_of_stage_update i lamella Finished false;
     call_end_of_stage_update i (start_of_stage_update lamella Finished false) false]
  else [].

Lemma finish_body_focus done x rest tr n :
  finish_body (length done) (mkState (done ++ x :: rest) tr n) =
  (mkState (done ++ finish_advance x :: rest)
     (tr ++ finish_calls (length done) x) n, Ok tt).
Proof.
  unfold finish_body, finish_advance, finish_calls, finish_ready.
  unfold bind at 1. unfold get_position at 1. simpl. rewrite lookup_focus.
  destruct (_ && _).
  - unfold bind. rewrite do_start_focus, do_end_focus.
    rewrite <- !app_assoc. reflexivity.
  - unfold ret. rewrite app_nil_r. reflexivity.
Qed.

(** One pass of the outer loop, for [stage]: it runs when the stage is
    among [stages_to_complete]. *)
Definition pass_advance (stages_to_complete : list AutoLamellaStage)
    (stage : AutoLamellaStage) (lamella : Lamella) : Lamella :=
  if bool_decide (stage ∈ stages_to_complete) then milling_advance stage lamella
  else lamella.

Definition pass_calls (stages_to_complete : list AutoLamellaStage)
    (stage : AutoLamellaStage) (ps : list Lamella) : list Call :=
  if bool_decide (stage ∈ stages_to_complete)
  then concat (imap (milling_calls stage) ps)
  else [].

(** One run on one record: the three passes in the order of
    [LAMELLA_MILLING_WORKFLOW], then the finish. *)
Definition lamella_milling_advance (stages_to_complete : list AutoLamellaStage)
    (lamella : Lamella) : Lamella :=
  finish_advance
    (pass_advance stages_to_complete MillPolishing
       (pass_advance stages_to_complete SetupPolishing
          (pass_advance stages_to_complete MillRough lamella))).

(** The calls of one run: pass after pass, in each pass position after
    position, then the finish and the closing log line. *)
Definition lamella_milling_calls (stages_to_complete : list AutoLamellaStage)
    (ps : list Lamella) : list Call :=
  let ps1 := pass_advance stages_to_complete MillRough <$> ps in
  let ps2 := pass_advance stages_to_complete SetupPolishing <$> ps1 in
  let ps3 := pass_advance stages_to_complete MillPolishing <$> ps2 in
  pass_calls stages_to_complete MillRough ps ++
  pass_calls stages_to_complete SetupPolishing ps1 ++
  pass_calls stages_to_complete MillPolishing ps2 ++
  concat (imap finish_calls ps3) ++
  null_end_log (finish_advance <$> ps3).

Lemma last_index_again (n : nat) (before : option nat) :
  last_index n (last_index n before) = last_index n before.
Proof. destruct n; reflexivity. Qed.

Lemma fmap_self (ps : list Lamella) : (fun l : Lamella => l) <$> ps = ps.
Proof. exact (list_fmap_id ps). Qed.

Lemma milling_phase_run stage ps tr n before :
  stage ∈ LAMELLA_MILLING_WORKFLOW →
  for_positions (milling_body stage) before (mkState ps tr n) =
  (mkState (milling_advance stage <$> ps)
     (tr ++ concat (imap (milling_calls stage) ps)) n,
   Ok (last_index (length ps) before)).
Proof using value_injective prior_before_rough polishing_after_rough
            start_sets_stage.
  intros Hin.
  apply (for_positions_pointwise (milling_body stage) (milling_advance stage)
           (milling_calls stage)).
  intros. apply milling_body_focus, Hin.
Qed.

(** The binding of the loop variable after a pass. *)
Definition pass_binding (stages_to_complete : list AutoLamellaStage)
    (stage : AutoLamellaStage) (n : nat) (before : option nat) : option nat :=
  if bool_decide (stage ∈ stages_to_complete) then last_index n before else before.

Lemma pass_run stages_to_complete stage ps tr n before
    {B} (k : option nat → M B) :
  stage ∈ LAMELLA_MILLING_WORKFLOW →
  (if bool_decide (stage ∈ stages_to_complete)
   then lamella' <- for_positions (milling_body stage) before ;; k lamella'
   else k before) (mkState ps tr n) =
  k (pass_binding stages_to_complete stage (length ps) before)
    (mkState (pass_advance stages_to_complete stage <$> ps)
       (tr ++ pass_calls stages_to_complete stage ps) n).
Proof using value_injective prior_before_rough polishing_after_rough
            start_sets_stage.
  intros Hin. unfold pass_advance, pass_calls, pass_binding.
  destruct (bool_decide (stage ∈ stages_to_complete)).
  - unfold bind. rewrite (milling_phase_run stage _ _ _ _ Hin). reflexivity.
  - cbv beta iota. rewrite fmap_self, app_nil_r. reflexivity.
Qed.

Lemma milling_stages_cons stage rest stages_to_complete lamella :
  milling_stages (stage :: rest) stages_to_complete lamella =
  if bool_decide (stage ∈ stages_to_complete)
  then lamella' <- for_positions (milling_body stage) lamella ;;
       milling_stages rest stages_to_complete lamella'
  else milling_stages rest stages_to_complete lamella.
Proof. reflexivity. Qed.

Lemma last_index_settled stages_to_complete (n : nat) :
  last_index n
    (pass_binding stages_to_complete MillPolishing n
       (pass_binding stages_to_complete SetupPolishing n
          (pass_binding stages_to_complete MillRough n None))) =
  last_index n None.
Proof.
  unfold pass_binding.
  destruct (bool_decide (MillRough ∈ stages_to_complete)),
           (bool_decide (SetupPolishing ∈ stages_to_complete)),
           (bool_decide (MillPolishing ∈ stages_to_complete));
    rewrite ?last_index_again; reflexivity.
Qed.

(** The whole of a run, for any [stages_to_complete]. *)
Lemma run_lamella_milling_exact (stages_to_complete : list AutoLamellaStage)
    (ps : list Lamella) :
  run_lamella_milling stages_to_complete (init ps) =
  (mkState (lamella_milling_advance stages_to_complete <$> ps)
     (lamella_milling_calls stages_to_complete ps) 0,
   match ps with [] => Raise UnboundLocalError | _ :: _ => Ok tt end).
Proof using value_injective prior_before_rough polishing_after_rough
            start_sets_stage.
  unfold run_lamella_milling, init.
  assert (H1 : MillRough ∈ LAMELLA_MILLING_WORKFLOW)
    by (unfold LAMELLA_MILLING_WORKFLOW; in_list).
  assert (H2 : SetupPolishing ∈ LAMELLA_MILLING_WORKFLOW)
    by (unfold LAMELLA_MILLING_WORKFLOW; in_list).
  assert (H3 : MillPolishing ∈ LAMELLA_MILLING_WORKFLOW)
    by (unfold LAMELLA_MILLING_WORKFLOW; in_list).
  unfold bind at 1. unfold LAMELLA_MILLING_WORKFLOW at 1.
  rewrite milling_stages_cons.
  rewrite (pass_run stages_to_complete MillRough _ _ _ _
             (milling_stages [SetupPolishing; MillPolishing] stages_to_complete) H1).
  rewrite milling_stages_cons.
  rewrite (pass_run stages_to_complete SetupPolishing _ _ _ _
             (milling_stages [MillPolishing] stages_to_complete) H2).
  rewrite milling_stages_cons.
  rewrite (pass_run stages_to_complete MillPolishing _ _ _ _
             (milling_stages [] stages_to_complete) H3).
  cbn [milling_stages]. unfold ret. unfold bind.
  rewrite (for_positions_pointwise finish_body finish_advance finish_calls
             finish_body_focus).
  rewrite !length_fmap, last_index_settled.
  match goal with
  | |- context [log_null_end _ (mkState ?qs ?tr ?n)] =>
      pose proof (log_null_end_run qs tr n) as L
  end.
  rewrite !length_fmap in L. rewrite L. clear L.
  unfold lamella_milling_advance, lamella_milling_calls.
  f_equal; [ | destruct ps; reflexivity ].
  f_equal.
  - rewrite <- !list_fmap_compose. reflexivity.
  - rewrite app_nil_l, <- !app_assoc. reflexivity.
Qed.

(** What a pass does to the stage and the flag of a record it advances. *)
Lemma milling_advance_ready stage x :
  milling_ready stage x = true →
  workflow (milling_advance stage x) = stage ∧
  is_failure (milling_advance stage x) = is_failure x.
Proof using start_sets_stage start_keeps_flag stage_keeps end_keeps.
  intros Hr. unfold milling_advance. rewrite Hr.
  destruct (end_keeps (stage_effect (table_fn stage)
                         (start_of_stage_update x stage true)) true) as [-> ->].
  destruct (stage_keeps (table_fn stage) (start_of_stage_update x stage true))
    as [-> ->].
  rewrite start_sets_stage, start_keeps_flag. split; reflexivity.
Qed.

Lemma entered_milling_calls stage i x :
  entered (milling_calls stage i x) = if milling_ready stage x then [stage] else [].
Proof. unfold milling_calls. destruct (milling_ready stage x); reflexivity. Qed.

Lemma entered_finish_calls i x :
  entered (finish_calls i x) = if finish_ready x then [Finished] else [].
Proof. unfold finish_calls. destruct (finish_ready x); reflexivity. Qed.

Lemma milling_calls_on stage k x :
  Forall (fun c => on_position c = Some (0 + k)%nat) (milling_calls stage k x).
Proof. unfold milling_calls. destruct (milling_ready stage x); repeat constructor. Qed.

Lemma finish_calls_on k x :
  Forall (fun c => on_position c = Some (0 + k)%nat) (finish_calls k x).
Proof. unfold finish_calls. destruct (finish_ready x); repeat constructor. Qed.

(** The stages position [i] is entered into in a run with all three
    stages to complete, read off the calls of the run. *)
Lemma entries_on_lamella_milling_calls (ps : list Lamella) (i : nat) (l : Lamella) :
  ps !! i = Some l →
  let l1 := milling_advance MillRough l in
  let l2 := milling_advance SetupPolishing l1 in
  let l3 := milling_advance MillPolishing l2 in
  entered (calls_on i (lamella_milling_calls LAMELLA_MILLING_WORKFLOW ps)) =
  (if milling_ready MillRough l then [MillRough] else []) ++
  (if milling_ready SetupPolishing l1 then [SetupPolishing] else []) ++
  (if milling_ready MillPolishing l2 then [MillPolishing] else []) ++
  (if finish_ready l3 then [Finished] else []).
Proof.
  intros Hl l1 l2 l3. unfold lamella_milling_calls, pass_calls, pass_advance.
  rewrite !bool_decide_eq_true_2 by (unfold LAMELLA_MILLING_WORKFLOW; in_list).
  rewrite !calls_on_app, !entered_app.
  rewrite !(calls_on_concat_imap _ _ _ 0%nat) by
    (intros; first [ apply milling_calls_on | apply finish_calls_on ]).
  rewrite !decide_True by lia. rewrite !Nat.sub_0_r.
  rewrite !list_lookup_fmap, Hl. simpl.
  rewrite !entered_milling_calls, entered_finish_calls, entered_null_end_log.
  rewrite app_nil_r. reflexivity.
Qed.

(** X8.  For collaborators that record the new stage on start and leave
    stage and failure flag alone otherwise, and stage values in which
    [SetupPolishing] follows [MillRough] directly: one run of
    [run_lamella_milling] with all three stages to complete enters a
    position that is at the stage before [MillRough], with its failure
    flag unset, into [MillRough], [SetupPolishing], [MillPolishing] and
    [Finished], in this order and into nothing else, and leaves it at
    [Finished]; a position whose failure flag is set is entered into no
    stage and its record stays as it was. *)
Theorem run_lamella_milling_finishes_ready_positions
    (ps : list Lamella) (i : nat) (l : Lamella) :
  ps !! i = Some l →
  let run := run_lamella_milling LAMELLA_MILLING_WORKFLOW in
  let st' := final run (init ps) in
  (workflow l = prior → is_failure l = false →
   outcome run (init ps) = Ok tt ∧
   entered (calls_on i (trace st')) =
     [MillRough; SetupPolishing; MillPolishing; Finished] ∧
   ∃ l', positions st' !! i = Some l' ∧
         workflow l' = Finished ∧ is_failure l' = false) ∧
  (is_failure l = true →
   entered (calls_on i (trace st')) = [] ∧ positions st' !! i = Some l).
Proof using value_injective prior_before_rough polishing_after_rough
            start_sets_stage start_keeps_flag stage_keeps end_keeps.
  intros Hl run st'. subst run st'. unfold final, outcome.
  rewrite (run_lamella_milling_exact LAMELLA_MILLING_WORKFLOW ps). simpl.
  rewrite (entries_on_lamella_milling_calls ps i l Hl).
  rewrite list_lookup_fmap, Hl. simpl.
  unfold lamella_milling_advance, pass_advance.
  rewrite !bool_decide_eq_true_2 by (unfold LAMELLA_MILLING_WORKFLOW; in_list).
  split.
  - intros Hw Hf.
    assert (R1 : milling_ready MillRough l = true).
    { unfold milling_ready, previous_completed.
      rewrite Hf, (bool_decide_eq_true_2 _ Hw). reflexivity. }
    destruct (milling_advance_ready MillRough l R1) as [W1 F1]. rewrite Hf in F1.
    assert (R2 : milling_ready SetupPolishing (milling_advance MillRough l) = true).
    { unfold milling_ready, previous_completed.
      rewrite F1, (bool_decide_eq_true_2 _ W1). reflexivity. }
    destruct (milling_advance_ready SetupPolishing _ R2) as [W2 F2].
    rewrite F1 in F2.
    assert (R3 : milling_ready MillPolishing
                   (milling_advance SetupPolishing (milling_advance MillRough l))
                 = true).
    { unfold milling_ready, previous_completed. rewrite F2, W2.
      rewrite bool_decide_eq_true_2 by in_list. reflexivity. }
    destruct (milling_advance_ready MillPolishing _ R3) as [W3 F3].
    rewrite F2 in F3.
    assert (R4 : finish_ready
                   (milling_advance MillPolishing
                      (milling_advance SetupPolishing
                         (milling_advance MillRough l))) = true).
    { unfold finish_ready. rewrite F3, (bool_decide_eq_true_2 _ W3). reflexivity. }
    rewrite R1, R2, R3, R4.
    split; [ destruct ps; [ discriminate Hl | reflexivity ] | ].
    split; [ reflexivity | ].
    eexists. split; [ reflexivity | ].
    unfold finish_advance. rewrite R4.
    destruct (end_keeps (start_of_stage_update
                           (milling_advance MillPolishing
                              (milling_advance SetupPolishing
                                 (milling_advance MillRough l))) Finished false)
                false) as [-> ->].
    rewrite start_sets_stage, start_keeps_flag. split; [ reflexivity | exact F3 ].
  - intros Hf.
    assert (R : ∀ stage, milling_ready stage l = false).
    { intros stage. unfold milling_ready. rewrite Hf. apply andb_false_r. }
    assert (A : ∀ stage, milling_advance stage l = l).
    { intros stage. unfold milling_advance. rewrite R. reflexivity. }
    rewrite !A, !R.
    assert (R4 : finish_ready l = false).
    { unfold finish_ready. rewrite Hf. apply andb_false_r. }
    unfold finish_advance. rewrite R4. split; reflexivity.
Qed.

End Progress.

(** *** The state machine of [run_lamella_milling] *)

(** C2.  [run_lamella_milling] is a state machine over the positions.

    Whatever the collaborators do, every call of [start_of_stage_update]
    it makes is on a position whose failure flag is unset and
      - towards [MillRough] or [SetupPolishing] only when the position's
        stage is the one whose enum value is one less,
      - towards [MillPolishing] only when the position's stage is
        [MillRough] or [SetupPolishing],
      - towards [Finished] only when the position's stage is
        [MillPolishing],
    and towards no other stage; and the stages entered in the course of a
    run are in the fixed order MillRough, SetupPolishing, MillPolishing,
    then the finish.

    And it does advance the positions: when the members of the
    enumeration have values of their own, [prior] is the member one below
    [MillRough], [SetupPolishing] is one above [MillRough], and
    [start_of_stage_update] records the stage it is given, a run goes
    through the stages of [LAMELLA_MILLING_WORKFLOW] that are to be
    completed, in their order, and in each visits all positions in list
    order: a position that is ready for the stage and not failed is taken
    through [start_of_stage_update], the stage's function and
    [end_of_stage_update], any other is passed by.  Then the positions at
    [MillPolishing] are moved to [Finished].  The run returns unless
    there is no position. *)
Theorem run_lamella_milling_state_machine
    (stages_to_complete : list AutoLamellaStage) (ps : list Lamella) :
  let run := run_lamella_milling stages_to_complete in
  let tr := trace (final run (init ps)) in
  (Forall milling_guard tr ∧ StronglySorted attempted_before (entered tr)) ∧
  ∀ prior : AutoLamellaStage,
    (∀ s t, value s = value t → s = t) →
    value prior = value MillRough - 1 →
    value MillRough = value SetupPolishing - 1 →
    (∀ l s r, workflow (start_of_stage_update l s r) = s) →
    positions (final run (init ps)) =
      lamella_milling_advance prior stages_to_complete <$> ps ∧
    tr = lamella_milling_calls prior stages_to_complete ps ∧
    outcome run (init ps) =
      match ps with [] => Raise UnboundLocalError | _ :: _ => Ok tt end.
Proof.
  intros run tr. subst run tr. split.
  - destruct (run_lamella_milling_inv stages_to_complete ps) as (Hg & Hs & _).
    split; assumption.
  - intros prior Hinj Hprior Hpol Hstart. unfold final, outcome.
    rewrite (run_lamella_milling_exact Hinj prior Hprior Hpol Hstart).
    repeat split.
Qed.

(** X4.  [run_lamella_milling] makes no prompt and enters positions only
    into stages of [LAMELLA_MILLING_WORKFLOW] that are listed in
    [stages_to_complete], or into [Finished].  When [stages_to_complete]
    holds none of the three milling stages, the run is the finish alone,
    whatever the collaborators do: the positions at [MillPolishing] with
    the failure flag unset get [start_of_stage_update] towards [Finished]
    and [end_of_stage_update], no stage function is called, every other
    record stays as it was, and the closing log line follows. *)
Theorem run_lamella_milling_respects_stages_to_complete
    (stages_to_complete : list AutoLamellaStage) (ps : list Lamella) :
  Forall
    (core_call (fun s => (s ∈ stages_to_complete ∧ s ∈ LAMELLA_MILLING_WORKFLOW)
                         ∨ s = Finished))
    (trace (final (run_lamella_milling stages_to_complete) (init ps))) ∧
  ((∀ s, s ∈ LAMELLA_MILLING_WORKFLOW → s ∉ stages_to_complete) →
   run_lamella_milling stages_to_complete (init ps) =
   (mkState (finish_advance <$> ps)
      (concat (imap finish_calls ps) ++ null_end_log (finish_advance <$> ps)) 0,
    match ps with [] => Raise UnboundLocalError | _ :: _ => Ok tt end)).
Proof.
  split.
  - set (S := fun s => (s ∈ stages_to_complete ∧ s ∈ LAMELLA_MILLING_WORKFLOW)
                       ∨ s = Finished).
    assert (H : emits_only (core_call S) (run_lamella_milling stages_to_complete)).
    { apply emits_only_bind; [ | intros lamella ].
      - eapply emits_only_weaken; [ | apply emits_milling_stages_in ].
        intros c [Hp Hc]. split; [ exact Hp | ]. intros s Hs. left. apply Hc, Hs.
      - apply emits_only_bind; [ | apply emits_log_null_end ].
        apply emits_only_for_positions; intros j.
        apply emits_only_bind; [ apply emits_only_get_position | intros x ].
        apply emits_only_if; [ | apply emits_only_ret ].
        apply emits_only_bind;
          [ apply emits_only_do_start; intros; apply core_call_start; right;
            reflexivity
          | intros _ ].
        apply emits_only_do_end; intros; apply core_call_plain; reflexivity. }
    apply (H _ (Forall_closed _)). constructor.
  - intros Hnone. unfold run_lamella_milling, init.
    unfold bind at 1. unfold LAMELLA_MILLING_WORKFLOW at 1. cbn [milling_stages].
    rewrite !bool_decide_eq_false_2
      by (apply Hnone; unfold LAMELLA_MILLING_WORKFLOW; in_list).
    unfold ret. unfold bind.
    rewrite (for_positions_pointwise finish_body finish_advance finish_calls
               finish_body_focus).
    simpl app.
    pose proof (log_null_end_run (finish_advance <$> ps)
                  (concat (imap finish_calls ps)) 0%nat) as L.
    rewrite length_fmap in L. rewrite L. destruct ps; reflexivity.
Qed.

End WithCollaborators.

(** *** A concrete experiment

    Position records with the two attributes the runners read and a
    history of completed stages; collaborators that set the stage on
    start and append to the history on end; the stage values that
    [auto()] gives the members in their order of declaration. *)

Record Position : Type := mkPosition {
  position_workflow : AutoLamellaStage;
  position_is_failure : bool;
  position_history : list AutoLamellaStage
}.

Definition auto_value (s : AutoLamellaStage) : Z :=
  match s with
  | Created => 1
  | PositionReady => 2
  | MillTrench => 3
  | MillUndercut => 4
  | LiftoutLamella => 5
  | LandLamella => 6
  | SetupLamella => 7
  | MillRough => 8
  | SetupPolishing => 9
  | MillPolishing => 10
  | Finished => 11
  end.

Definition sets_stage (l : Position) (s : AutoLamellaStage) (_ : bool) : Position :=
  mkPosition s (position_is_failure l) (position_history l).

Definition no_effect (_ : StageFn) (l : Position) : Position := l.

Definition logs_stage (l : Position) (_ : bool) : Position :=
  mkPosition (position_workflow l) (position_is_failure l)
    (position_history l ++ [position_workflow l]).

Definition all_supervised (_ : AutoLamellaStage) : bool := true.

Definition some_at_stage (ps : list Position) (s : AutoLamellaStage) : bool :=
  existsb (fun l => bool_decide (position_workflow l = s)) ps.

Definition always_yes (_ : nat) : bool := true.
Definition always_no (_ : nat) : bool := false.

Definition ready_position : Position := mkPosition PositionReady false [].
Definition failed_position : Position := mkPosition PositionReady true [].
Definition set_up_position : Position := mkPosition SetupLamella false [].

(** [AutoLamellaMethod.ON_GRID.workflow], the default
    [stages_to_complete] of [run_autolamella]. *)
Definition on_grid_workflow : list AutoLamellaStage :=
  [SetupLamella; MillRough; SetupPolishing; MillPolishing].

Definition spot_burn : M unit :=
  run_spot_burn_workflow (Lamella := Position) always_yes.

Definition trench_milling : M unit :=
  run_trench_milling position_workflow position_is_failure
    sets_stage no_effect logs_stage.

Definition autolamella (reply : nat → bool) : M unit :=
  run_autolamella position_workflow position_is_failure auto_value
    sets_stage no_effect logs_stage all_supervised reply on_grid_workflow.

(** [run_spot_burn_workflow] does not pass a failed position by: with a
    single position whose failure flag is set, the runner moves the stage
    to it, images it and prompts for it. *)
Lemma spot_burn_works_on_failed_position :
  position_is_failure failed_position = true ∧
  ¬ skipped 0 failed_position (final spot_burn (init [failed_position])).
Proof.
  split; [ reflexivity | ]. intros [_ H].
  vm_compute in H. inversion H as [|c tr Hc _]. discriminate Hc.
Qed.

Lemma runners_invoke_no_stage_function_on_failed_positions_witness :
  untouched 1 failed_position
    (final trench_milling (init [ready_position; failed_position])) ∧
  untouched 0 failed_position (final spot_burn (init [failed_position])).
Proof.
  destruct (runners_invoke_no_stage_function_on_failed_positions
              position_workflow position_is_failure auto_value sets_stage
              no_effect logs_stage always_yes) as (H1 & _ & _ & _ & H5).
  split.
  - exact (H1 [ready_position; failed_position] 1%nat failed_position
             eq_refl eq_refl).
  - exact (H5 [failed_position] 0%nat failed_position eq_refl eq_refl).
Defined.






Definition lamella_milling : M unit :=
  run_lamella_milling position_workflow position_is_failure auto_value
    sets_stage no_effect logs_stage LAMELLA_MILLING_WORKFLOW.

Lemma auto_value_injective (s t : AutoLamellaStage) :
  auto_value s = auto_value t → s = t.
Proof. destruct s, t; simpl; intros H; try reflexivity; discriminate H. Qed.

Lemma method_runners_skip_failed_positions_witness :
  skipped 1 failed_position
    (final (autolamella always_yes) (init [ready_position; failed_position])).
Proof.
  exact (proj1 (method_runners_skip_failed_positions position_workflow
                  position_is_failure auto_value sets_stage no_effect logs_stage
                  all_supervised some_at_stage always_yes on_grid_workflow)
           [ready_position; failed_position] 1%nat failed_position
           eq_refl eq_refl).
Defined.

Lemma run_lamella_milling_finishes_ready_positions_witness :
  outcome lamella_milling (init [failed_position; set_up_position]) = Ok tt ∧
  entered (calls_on 1 (trace (final lamella_milling
                                (init [failed_position; set_up_position])))) =
    [MillRough; SetupPolishing; MillPolishing; Finished] ∧
  ∃ l', positions (final lamella_milling (init [failed_position; set_up_position]))
          !! 1%nat = Some l' ∧
        position_workflow l' = Finished ∧ position_is_failure l' = false.
Proof.
  pose proof (run_lamella_milling_finishes_ready_positions position_workflow
                position_is_failure auto_value sets_stage no_effect logs_stage
                auto_value_injective SetupLamella eq_refl eq_refl
                (fun _ _ _ => eq_refl) (fun _ _ _ => eq_refl)
                (fun _ _ => conj eq_refl eq_refl)
                (fun _ _ => conj eq_refl eq_refl)
                [failed_position; set_up_position] 1%nat set_up_position eq_refl)
    as [H _].
  exact (H eq_refl eq_refl).
Defined.

Lemma run_lamella_milling_dispatches_by_table_witness :
  dispatched position_workflow sets_stage
    [call_start_of_stage_update 0 set_up_position MillRough true]
    (call_stage_fn 0 (sets_stage set_up_position MillRough true) mill_lamella).
Proof.
  eapply (proj1 (run_lamella_milling_dispatches_by_table position_workflow
                   position_is_failure auto_value sets_stage no_effect logs_stage
                   LAMELLA_MILLING_WORKFLOW [set_up_position])).
  lazy. reflexivity.
Defined.

Definition polished_position : Position := mkPosition MillPolishing false [].

Lemma run_lamella_milling_state_machine_witness :
  positions (final lamella_milling (init [failed_position; set_up_position])) =
  [failed_position;
   mkPosition Finished false [MillRough; SetupPolishing; MillPolishing; Finished]].
Proof.
  destruct (run_lamella_milling_state_machine position_workflow
              position_is_failure auto_value sets_stage no_effect logs_stage
              LAMELLA_MILLING_WORKFLOW [failed_position; set_up_position])
    as [_ H].
  destruct (H SetupLamella auto_value_injective eq_refl eq_refl
              (fun _ _ _ => eq_refl)) as (Hpos & _ & _).
  etransitivity; [ exact Hpos | reflexivity ].
Defined.

Lemma run_lamella_milling_respects_stages_to_complete_witness :
  run_lamella_milling position_workflow position_is_failure auto_value
    sets_stage no_effect logs_stage [SetupLamella]
    (init [polished_position; set_up_position]) =
  (mkState [mkPosition Finished false [Finished]; set_up_position]
     [call_start_of_stage_update 0 polished_position Finished false;
      call_end_of_stage_update 0 (mkPosition Finished false []) false;
      call_log_status_message 1 set_up_position "NULL_END"] 0,
   Ok tt).
Proof.
  apply (proj2 (run_lamella_milling_respects_stages_to_complete position_workflow
                  position_is_failure auto_value sets_stage no_effect logs_stage
                  [SetupLamella] [polished_position; set_up_position])).
  intros s Hs Hin. apply elem_of_cons in Hin as [-> | Hin];
    [ | apply elem_of_nil in Hin; exact Hin ].
  unfold LAMELLA_MILLING_WORKFLOW in Hs.
  repeat (apply elem_of_cons in Hs as [Hs | Hs]; [ discriminate Hs | ]).
  apply elem_of_nil in Hs. exact Hs.
Defined.

End Runners.

(* ===================================================================== *)
(** ** Part II.  patterns.py                                             *)
(* ===================================================================== *)

Module Patterns.

Local Open Scope R_scope.

(** Python floats are taken as real numbers; [int(x)] truncates towards
    zero.  The not-a-number and the infinite floats, on which [int()]
    raises, are outside the reals: what is proved below is about finite
    numbers, and says nothing of those errors. *)
Definition int (x : R) : Z :=
  if Rle_dec 0 x then Int_part x else (- Int_part (- x))%Z.

Inductive Exn : Set :=
  | ValueError
  | ZeroDivisionError
  | IndexError
  | AttributeError
  | OSError.

Inductive Result (A : Type) : Type :=
  | Ok (a : A)
  | Raise (e : Exn).
Arguments Ok {A} a.
Arguments Raise {A} e.

(** [x / y] on floats: raises on a zero divisor. *)
Definition divide (x y : R) : Result R :=
  if Req_dec_T y 0 then Raise ZeroDivisionError else Ok (x / y).

(** *** Data from [fibsem.structures], as far as this file reads it *)

Record Point : Type := mkPoint { x : R; y : R }.

Record FibsemRectangleSettings : Type := mkRectangleSettings {
  rect_width : R;
  rect_height : R;
  rect_centre_x : R;
  rect_centre_y : R;
  rect_rotation : R
}.

Record FibsemCircleSettings : Type := mkCircleSettings {
  circle_radius : R;
  circle_centre_x : R;
  circle_centre_y : R
}.

Record FibsemLineSettings : Type := mkLineSettings {
  start_x : R;
  start_y : R;
  end_x : R;
  end_y : R
}.

Record FibsemBitmapSettings : Type := mkBitmapSettings {
  bitmap_width : R;
  bitmap_height : R;
  bitmap_rotation : R;
  bitmap_centre_x : R;
  bitmap_centre_y : R;
  bitmap_path : string
}.

(** A pattern settings object: one of the four classes the drawing table
    knows, or an object of another class, known by the name of its type. *)
Inductive FibsemPatternSettings : Type :=
  | Rectangle (s : FibsemRectangleSettings)
  | Circle (s : FibsemCircleSettings)
  | Line (s : FibsemLineSettings)
  | Bitmap (s : FibsemBitmapSettings)
  | OtherSettings (type_name : string).

(** [type(pattern_settings)]. *)
Inductive SettingsType : Set :=
  | TFibsemRectangleSettings
  | TFibsemCircleSettings
  | TFibsemLineSettings
  | TFibsemBitmapSettings
  | TOther (type_name : string).

Definition type (p : FibsemPatternSettings) : SettingsType :=
  match p with
  | Rectangle _ => TFibsemRectangleSettings
  | Circle _ => TFibsemCircleSettings
  | Line _ => TFibsemLineSettings
  | Bitmap _ => TFibsemBitmapSettings
  | OtherSettings n => TOther n
  end.

Record FibsemRectangle : Type := mkFibsemRectangle {
  left : R;
  top : R;
  width : R;
  height : R
}.

(** An image shape [(rows, columns)]. *)
Definition ImageShape : Type := (Z * Z)%type.

(** A vertex [[y, x]] of a napari shape, and a shape as the list of its
    vertices (the rows of the array). *)
Definition Vertex : Type := (R * R)%type.

Definition vertex_y (v : Vertex) : R := v.1.
Definition vertex_x (v : Vertex) : R := v.2.

(** *** [get_image_pixel_centre] *)

Definition get_image_pixel_centre (shape : ImageShape) : Z * Z :=
  ((shape.1 / 2)%Z, (shape.2 / 2)%Z).

(** *** [convert_pattern_to_napari_circle] *)

Definition convert_pattern_to_napari_circle
    (pattern_settings : FibsemPatternSettings) (shape : ImageShape) (pixelsize : R)
  : Result (list Vertex) :=
  match pattern_settings with
  | Circle s =>
      let '(icy, icx) := get_image_pixel_centre shape in
      if Req_dec_T pixelsize 0 then Raise ZeroDivisionError else
      let r := int (circle_radius s / pixelsize) in
      let cx := int (IZR icx + circle_centre_x s / pixelsize) in
      let cy := int (IZR icy - circle_centre_y s / pixelsize) in
      let '(xmin, ymin) := ((cx - r)%Z, (cy - r)%Z) in
      let '(xmax, ymax) := ((cx + r)%Z, (cy + r)%Z) in
      Ok [(IZR ymin, IZR xmin); (IZR ymin, IZR xmax);
          (IZR ymax, IZR xmax); (IZR ymax, IZR xmin)]
  | _ => Raise ValueError
  end.

(** *** [convert_pattern_to_napari_line] *)

Definition convert_pattern_to_napari_line
    (pattern_settings : FibsemPatternSettings) (shape : ImageShape) (pixelsize : R)
  : Result (list Vertex) :=
  match pattern_settings with
  | Line s =>
      let '(icy, icx) := get_image_pixel_centre shape in
      if Req_dec_T pixelsize 0 then Raise ZeroDivisionError else
      let px0 := int (IZR icx + start_x s / pixelsize) in
      let py0 := int (IZR icy - start_y s / pixelsize) in
      let px1 := int (IZR icx + end_x s / pixelsize) in
      let py1 := int (IZR icy - end_y s / pixelsize) in
      Ok [(IZR py0, IZR px0); (IZR py1, IZR px1)]
  | _ => Raise ValueError
  end.

(** *** [convert_pattern_to_napari_rect] *)

(** Lines 133-144: the four corners of the [w] by [h] rectangle about
    [(cx, cy)], turned by [r]. *)
Definition rotated_corners (cx cy : Z) (w h : R) (r : R) : list Vertex :=
  let '(xmin, xmax) := (- w / 2, w / 2) in
  let '(ymin, ymax) := (- h / 2, h / 2) in
  let px0 := IZR cx + (xmin * cos r - ymin * sin r) in
  let py0 := IZR cy + (xmin * sin r + ymin * cos r) in
  let px1 := IZR cx + (xmax * cos r - ymin * sin r) in
  let py1 := IZR cy + (xmax * sin r + ymin * cos r) in
  let px2 := IZR cx + (xmax * cos r - ymax * sin r) in
  let py2 := IZR cy + (xmax * sin r + ymax * cos r) in
  let px3 := IZR cx + (xmin * cos r - ymax * sin r) in
  let py3 := IZR cy + (xmin * sin r + ymax * cos r) in
  [(py0, px0); (py1, px1); (py2, px2); (py3, px3)].

Definition convert_pattern_to_napari_rect
    (pattern_settings : FibsemPatternSettings) (shape : ImageShape) (pixelsize : R)
  : Result (list Vertex) :=
  match pattern_settings with
  | Rectangle s =>
      let '(icy, icx) := get_image_pixel_centre shape in
      let pattern_width := rect_width s in
      let pattern_height := rect_height s in
      let pattern_centre_x := rect_centre_x s in
      let pattern_centre_y := rect_centre_y s in
      let pattern_rotation := rect_rotation s in
      if Req_dec_T pixelsize 0 then Raise ZeroDivisionError else
      let w := int (pattern_width / pixelsize) in
      let h := int (pattern_height / pixelsize) in
      let cx := int (IZR icx + pattern_centre_x / pixelsize) in
      let cy := int (IZR icy - pattern_centre_y / pixelsize) in
      let r := - pattern_rotation in
      Ok (rotated_corners cx cy (IZR w) (IZR h) r)
  | _ => Raise ValueError
  end.

(** *** [create_crosshair_shape] *)

Definition create_crosshair_shape
    (centre_point : Point) (shape : ImageShape) (pixelsize : R)
  : Result (list (list Vertex)) :=
  let '(icy, icx) := ((shape.1 / 2)%Z, (shape.2 / 2)%Z) in
  if Req_dec_T pixelsize 0 then Raise ZeroDivisionError else
  let cx := int (IZR icx + x centre_point / pixelsize) in
  let cy := int (IZR icy - y centre_point / pixelsize) in
  let r_angles := [0; PI / 2] in
  Ok (List.map (fun r => rotated_corners cx cy 40 1 r) r_angles).

(** *** [convert_point_to_napari] *)

(** The result is [Point(cx, cy)] of two integers.  [resolution] is a
    list [[width, height]]. *)
Definition convert_point_to_napari
    (resolution : list Z) (pixel_size : R) (centre : Point) : Result (Z * Z) :=
  match resolution with
  | r0 :: r1 :: _ =>
      let '(icy, icx) := ((r1 / 2)%Z, (r0 / 2)%Z) in
      if Req_dec_T pixel_size 0 then Raise ZeroDivisionError else
      let cx := int (IZR icx + x centre / pixel_size) in
      let cy := int (IZR icy - y centre / pixel_size) in
      Ok (cx, cy)
  | _ => Raise IndexError
  end.

(** *** [remove_all_napari_shapes_layers] *)

(** [IGNORE_SHAPES_LAYERS], with the stage position layers that line 52
    appends to it. *)
Definition IGNORE_SHAPES_LAYERS : list string :=
  ["ruler_line"; "crosshair"; "scalebar"; "label"; "alignment_area";
   "saved-stage-positions"; "current-stage-position"].

Definition IMAGE_PATTERN_LAYERS : list string := ["annulus-layer"; "bmp_Image"].

(** [sub in s] on strings. *)
Fixpoint contains (sub s : string) : bool :=
  if String.prefix sub s then true
  else match s with
       | EmptyString => false
       | String _ s' => contains sub s'
       end.

(** A layer of the viewer: its name and the rest of it. *)
Record Layer (Content : Type) : Type := mkLayer {
  layer_name : string;
  layer_content : Content
}.
Arguments mkLayer {Content} layer_name layer_content.
Arguments layer_name {Content} l.
Arguments layer_content {Content} l.

(** The test of lines 214-216 on one layer; [is_layer_type] is
    [isinstance(layer, layer_type)]. *)
Definition collected {Content} (is_layer_type : Layer Content → bool)
    (layers_to_ignore : list string) (layer : Layer Content) : bool :=
  if bool_decide (layer_name layer ∈ layers_to_ignore) then false
  else is_layer_type layer
       || existsb (fun name => contains name (layer_name layer)) IMAGE_PATTERN_LAYERS.

(** The layers left in [viewer.layers]: each collected layer is removed. *)
Definition remove_all_napari_shapes_layers {Content}
    (layers : list (Layer Content)) (is_layer_type : Layer Content → bool)
    (ignore : list string) : list (Layer Content) :=
  let layers_to_ignore := IGNORE_SHAPES_LAYERS ++ ignore in
  List.filter (fun layer => negb (collected is_layer_type layers_to_ignore layer))
    layers.

(** *** [validate_pattern_placement] *)

Definition Rltb (a b : R) : bool := if Rlt_dec a b then true else false.

Fixpoint validate_pattern_placement (image_shape : ImageShape) (shape : list Vertex)
  : bool :=
  let x_lim := IZR image_shape.2 in
  let y_lim := IZR image_shape.1 in
  match shape with
  | [] => true
  | coordinate :: rest =>
      let x_coord := vertex_x coordinate in
      let y_coord := vertex_y coordinate in
      if Rltb x_coord 0 || Rltb x_lim x_coord then false
      else if Rltb y_coord 0 || Rltb y_lim y_coord then false
      else validate_pattern_placement image_shape rest
  end.

(** *** [convert_reduced_area_to_napari_shape] and
        [convert_shape_to_image_area] *)

Definition convert_reduced_area_to_napari_shape
    (reduced_area : FibsemRectangle) (image_shape : ImageShape) : list Vertex :=
  let x0 := left reduced_area * IZR image_shape.2 in
  let y0 := top reduced_area * IZR image_shape.1 in
  let x1 := x0 + width reduced_area * IZR image_shape.2 in
  let y1 := y0 + height reduced_area * IZR image_shape.1 in
  [(y0, x0); (y0, x1); (y1, x1); (y1, x0)].

(** [min] and [max] of a non-empty list. *)
Definition min_of (first : R) (rest : list R) : R := fold_left Rmin rest first.
Definition max_of (first : R) (rest : list R) : R := fold_left Rmax rest first.

Definition convert_shape_to_image_area
    (shape : list Vertex) (image_shape : ImageShape) : Result FibsemRectangle :=
  match shape with
  | _ :: _ :: _ =>                      (* shape[0] and shape[1] exist *)
      let x_coords := List.map vertex_x shape in
      let y_coords := List.map vertex_y shape in
      match x_coords, y_coords with
      | xf :: xs, yf :: ys =>
          let '(x0, x1) := (min_of xf xs, max_of xf xs) in
          let '(y0, y1) := (min_of yf ys, max_of yf ys) in
          if Req_dec_T (IZR image_shape.2) 0 then Raise ZeroDivisionError else
          let x0 := x0 / IZR image_shape.2 in
          let x1 := x1 / IZR image_shape.2 in
          if Req_dec_T (IZR image_shape.1) 0 then Raise ZeroDivisionError else
          let y0 := y0 / IZR image_shape.1 in
          let y1 := y1 / IZR image_shape.1 in
          let w := x1 - x0 in
          let h := y1 - y0 in
          Ok (mkFibsemRectangle x0 y0 w h)
      | _, _ => Raise ValueError
      end
  | _ => Raise IndexError
  end.

(** *** The drawing table and the functions that use it *)

Record BasePattern : Type := mkPattern {
  is_fiducial : bool;          (* isinstance(pattern, FiducialPattern) *)
  point : Point;
  pattern_height : R;
  define : list FibsemPatternSettings   (* pattern.define() *)
}.

Record FibsemMillingStage : Type := mkStage { pattern : BasePattern }.

Record FibsemImage : Type := mkImage {
  data_shape : ImageShape;     (* image.data.shape *)
  pixel_size_x : R             (* image.metadata.pixel_size.x *)
}.

(** Records written to the log. *)
Inductive LogRecord : Set :=
  | warning_not_supported (t : SettingsType).

Definition COLOURS : list string :=
  ["yellow"; "cyan"; "magenta"; "lime"; "orange"; "hotpink"; "green"; "blue";
   "red"; "purple"].

Section WithToolkit.

(** Image arrays, and the three steps of the imaging library on a bitmap
    file (open, resize, rotate with expansion), which may fail. *)
Context {ImgArray : Type}.
Variable load_bitmap : string → Z → Z → R → Result ImgArray.

(** [calculate_fiducial_area_v2(image, centre, length)[1]]. *)
Variable fiducial_is_not_valid : FibsemImage → Point → R → bool.

(** What [validate_pattern_placement] makes of the pair that the bitmap
    converter returns in place of an array of vertices. *)
Variable validate_bitmap_placement : ImageShape → ImgArray → Z * Z → Result bool.

(** What a drawing function returns. *)
Inductive NapariShape : Type :=
  | VertexArray (vertices : list Vertex)
  | ImageAt (img_array : ImgArray) (translate_position : Z * Z).

Definition vertex_array (r : Result (list Vertex)) : Result NapariShape :=
  match r with
  | Ok vs => Ok (VertexArray vs)
  | Raise e => Raise e
  end.

(** [convert_bitmap_pattern_to_napari_image] has no type test of its own;
    it is taken on the class of its annotation. *)
Definition convert_bitmap_pattern_to_napari_image
    (pattern_settings : FibsemBitmapSettings) (shape : ImageShape) (pixelsize : R)
  : Result NapariShape :=
  let '(icy, icx) := get_image_pixel_centre shape in
  if Req_dec_T pixelsize 0 then Raise ZeroDivisionError else
  let resize_x := int (bitmap_width pattern_settings / pixelsize) in
  let resize_y := int (bitmap_height pattern_settings / pixelsize) in
  match load_bitmap (bitmap_path pattern_settings) resize_x resize_y
          (- bitmap_rotation pattern_settings) with
  | Raise e => Raise e
  | Ok img_array =>
      let pattern_centre_x :=
        int (IZR icx - bitmap_width pattern_settings / pixelsize / 2) in
      let pattern_centre_y :=
        int (IZR icy - bitmap_height pattern_settings / pixelsize / 2) in
      let pattern_point_x :=
        int (IZR pattern_centre_x + bitmap_centre_x pattern_settings / pixelsize) in
      let pattern_point_y :=
        int (IZR pattern_centre_y - bitmap_centre_y pattern_settings / pixelsize) in
      Ok (ImageAt img_array (pattern_point_y, pattern_point_x))
  end.

Definition DrawingFunction : Type :=
  FibsemPatternSettings → ImageShape → R → Result NapariShape.

(** [NAPARI_DRAWING_FUNCTIONS.get(t, None)].  The callers look the table
    up by the settings object's own type, so the function registered for
    bitmaps is only ever applied to a bitmap; its last branch is there for
    the typing of the table alone. *)
Definition NAPARI_DRAWING_FUNCTIONS (t : SettingsType) : option DrawingFunction :=
  match t with
  | TFibsemRectangleSettings =>
      Some (fun p shape pixelsize =>
              vertex_array (convert_pattern_to_napari_rect p shape pixelsize))
  | TFibsemCircleSettings =>
      Some (fun p shape pixelsize =>
              vertex_array (convert_pattern_to_napari_circle p shape pixelsize))
  | TFibsemLineSettings =>
      Some (fun p shape pixelsize =>
              vertex_array (convert_pattern_to_napari_line p shape pixelsize))
  | TFibsemBitmapSettings =>
      Some (fun p shape pixelsize =>
              match p with
              | Bitmap s => convert_bitmap_pattern_to_napari_image s shape pixelsize
              | _ => Raise AttributeError
              end)
  | TOther _ => None
  end.

(** [NAPARI_PATTERN_LAYER_TYPES.get(t, None)]. *)
Definition NAPARI_PATTERN_LAYER_TYPES (t : SettingsType) : option string :=
  match t with
  | TFibsemRectangleSettings => Some "rectangle"
  | TFibsemCircleSettings => Some "ellipse"
  | TFibsemLineSettings => Some "line"
  | TFibsemBitmapSettings => Some "image"
  | TOther _ => None
  end.

(** A computation that writes to the log and may raise: the records
    logged until it ended, and how it ended. *)
Definition Logged (A : Type) : Type := (list LogRecord * Result A)%type.

(** Lines 296-308, the loop over [stage.pattern.define()]: the shapes and
    shape types appended, in order. *)
Fixpoint convert_stage_patterns
    (image_shape : ImageShape) (pixelsize : R)
    (settings : list FibsemPatternSettings)
  : Logged (list NapariShape * list (option string)) :=
  match settings with
  | [] => ([], Ok ([], []))
  | pattern_settings :: rest =>
      match NAPARI_DRAWING_FUNCTIONS (type pattern_settings) with
      | None =>
          let '(log, r) := convert_stage_patterns image_shape pixelsize rest in
          (warning_not_supported (type pattern_settings) :: log, r)
      | Some napari_drawing_fn =>
          match napari_drawing_fn pattern_settings image_shape pixelsize with
          | Raise e => ([], Raise e)
          | Ok shape =>
              let stype := NAPARI_PATTERN_LAYER_TYPES (type pattern_settings) in
              let '(log, r) := convert_stage_patterns image_shape pixelsize rest in
              (log,
               match r with
               | Ok (napari_shapes, shape_types) =>
                   Ok (shape :: napari_shapes, stype :: shape_types)
               | Raise e => Raise e
               end)
          end
      end
  end.

(** What is handed to the viewer, and what the function returns. *)
Record Drawing : Type := mkDrawing {
  all_napari_shapes : list NapariShape;
  all_shape_types : list (option string);
  all_shape_colours : list string
}.

Definition no_drawing : Drawing := mkDrawing [] [] [].

Definition extend (d : Drawing) (shapes : list NapariShape)
    (types : list (option string)) (colours : list string) : Drawing :=
  mkDrawing (all_napari_shapes d ++ shapes) (all_shape_types d ++ types)
    (all_shape_colours d ++ colours).

(** Lines 310-330 for the stage of index [i]. *)
Definition add_stage_shapes
    (image_shape : ImageShape) (pixelsize : R) (draw_crosshair : bool)
    (n_milling_stages i : nat) (stage : FibsemMillingStage)
    (napari_shapes : list NapariShape) (shape_types : list (option string))
    (d : Drawing) : Result Drawing :=
  match napari_shapes with
  | [] => Ok d
  | _ :: _ =>
      let with_crosshair :=
        if draw_crosshair then
          match create_crosshair_shape (point (pattern stage)) image_shape pixelsize with
          | Raise e => Raise e
          | Ok crosshair_shapes =>
              Ok (napari_shapes ++ List.map VertexArray crosshair_shapes,
                  shape_types ++ [Some "rectangle"; Some "rectangle"])
          end
        else Ok (napari_shapes, shape_types) in
      match with_crosshair with
      | Raise e => Raise e
      | Ok (napari_shapes, shape_types) =>
          let is_background := (n_milling_stages <=? i)%nat in
          let colour :=
            if is_background then "black"
            else nth (i mod length COLOURS) COLOURS "" in
          let napari_colours := repeat colour (length napari_shapes) in
          Ok (extend d napari_shapes shape_types napari_colours)
      end
  end.

(** Lines 288-330, the loop over [enumerate(all_milling_stages)] from
    index [i] on. *)
Fixpoint convert_stages
    (image_shape : ImageShape) (pixelsize : R) (draw_crosshair : bool)
    (n_milling_stages i : nat) (stages : list FibsemMillingStage) (d : Drawing)
  : Logged Drawing :=
  match stages with
  | [] => ([], Ok d)
  | stage :: rest =>
      match convert_stage_patterns image_shape pixelsize (define (pattern stage)) with
      | (log, Raise e) => (log, Raise e)
      | (log, Ok (napari_shapes, shape_types)) =>
          match add_stage_shapes image_shape pixelsize draw_crosshair
                  n_milling_stages i stage napari_shapes shape_types d with
          | Raise e => (log, Raise e)
          | Ok d' =>
              let '(log', r) :=
                convert_stages image_shape pixelsize draw_crosshair
                  n_milling_stages (S i) rest d' in
              (log ++ log', r)
          end
      end
  end.

(** [draw_milling_patterns_in_napari]: the shapes it hands to the viewer
    and the list of layer names it returns.  The calls on the viewer
    itself (lines 332-357) belong to the visualisation toolkit and are
    not modelled: [Ok] says that the loops of lines 288-330 got through
    with these lists, and [Raise] that a drawing function raised in
    them. *)
Definition draw_milling_patterns_in_napari
    (image_shape : ImageShape) (milling_stages : list FibsemMillingStage)
    (pixelsize : R) (draw_crosshair : bool)
    (background_milling_stages : option (list FibsemMillingStage))
  : Logged (Drawing * list string) :=
  let all_milling_stages :=
    match background_milling_stages with
    | Some background => milling_stages ++ background
    | None => milling_stages
    end in
  let n_milling_stages := length milling_stages in
  let '(log, r) :=
    convert_stages image_shape pixelsize draw_crosshair n_milling_stages 0
      all_milling_stages no_drawing in
  (log,
   match r with
   | Ok d => Ok (d, ["Milling Patterns"])
   | Raise e => Raise e
   end).

(** *** [is_pattern_placement_valid] *)

Fixpoint placement_loop (image : FibsemImage) (settings : list FibsemPatternSettings)
  : Logged bool :=
  match settings with
  | [] => ([], Ok true)
  | pattern_settings :: rest =>
      match NAPARI_DRAWING_FUNCTIONS (type pattern_settings) with
      | None => ([warning_not_supported (type pattern_settings)], Ok false)
      | Some draw_func =>
          match draw_func pattern_settings (data_shape image) (pixel_size_x image) with
          | Raise e => ([], Raise e)
          | Ok napari_shape =>
              let is_valid_placement :=
                match napari_shape with
                | VertexArray vs =>
                    Ok (validate_pattern_placement (data_shape image) vs)
                | ImageAt img at_ =>
                    validate_bitmap_placement (data_shape image) img at_
                end in
              match is_valid_placement with
              | Raise e => ([], Raise e)
              | Ok false => ([], Ok false)
              | Ok true => placement_loop image rest
              end
          end
      end
  end.

Definition is_pattern_placement_valid (pattern : BasePattern) (image : FibsemImage)
  : Logged bool :=
  if is_fiducial pattern then
    ([], Ok (negb (fiducial_is_not_valid image (point pattern) (pattern_height pattern))))
  else placement_loop image (define pattern).


(** *** Unsupported pattern types *)

Definition is_supported (p : FibsemPatternSettings) : bool :=
  match NAPARI_DRAWING_FUNCTIONS (type p) with
  | Some _ => true
  | None => false
  end.

(** The warnings due for the settings objects of a list, in order. *)
Definition warnings_for (settings : list FibsemPatternSettings) : list LogRecord :=
  List.map (fun p => warning_not_supported (type p))
    (List.filter (fun p => negb (is_supported p)) settings).








(** All the stages a call draws. *)
Definition stages_drawn (milling_stages : list FibsemMillingStage)
    (background_milling_stages : option (list FibsemMillingStage))
  : list FibsemMillingStage :=
  match background_milling_stages with
  | Some background => milling_stages ++ background
  | None => milling_stages
  end.











(** *** Stages and patterns without a drawable settings object *)

Lemma convert_stage_patterns_unsupported image_shape pixelsize settings :
  Forall (fun p => is_supported p = false) settings →
  convert_stage_patterns image_shape pixelsize settings =
  (warnings_for settings, Ok ([], [])).
Proof.
  induction 1 as [|p rest Hp _ IH]; simpl; [ reflexivity | ].
  unfold warnings_for; simpl. rewrite Hp; simpl.
  unfold is_supported in Hp.
  destruct (NAPARI_DRAWING_FUNCTIONS (type p)); [ discriminate | ].
  rewrite IH. reflexivity.
Qed.

Lemma convert_stages_unsupported image_shape pixelsize draw_crosshair n stages :
  Forall (fun stage => Forall (fun p => is_supported p = false)
                         (define (pattern stage))) stages →
  ∀ i d,
  convert_stages image_shape pixelsize draw_crosshair n i stages d =
  (concat (List.map (fun stage => warnings_for (define (pattern stage))) stages),
   Ok d).
Proof.
  induction 1 as [|stage rest Hs _ IH]; intros i d; simpl; [ reflexivity | ].
  rewrite (convert_stage_patterns_unsupported _ _ _ Hs). simpl.
  rewrite IH. reflexivity.
Qed.

(** X10.  When no settings object of any stage has a drawing function,
    [draw_milling_patterns_in_napari] hands nothing to the viewer: no
    shape, and no crosshair either, since a crosshair is only drawn for a
    stage that yielded a shape.  It returns the layer name all the same,
    with one warning logged per settings object, and this for any pixel
    size, zero included. *)
Theorem nothing_drawn_without_supported_patterns
    image_shape milling_stages pixelsize draw_crosshair background :
  Forall (fun stage => Forall (fun p => is_supported p = false)
                         (define (pattern stage)))
    (stages_drawn milling_stages background) →
  draw_milling_patterns_in_napari image_shape milling_stages pixelsize
    draw_crosshair background =
  (concat (List.map (fun stage => warnings_for (define (pattern stage)))
             (stages_drawn milling_stages background)),
   Ok (no_drawing, ["Milling Patterns"])).
Proof.
  intros H. unfold draw_milling_patterns_in_napari.
  fold (stages_drawn milling_stages background).
  rewrite (convert_stages_unsupported _ _ _ _ _ H). reflexivity.
Qed.

(** X11.  [is_pattern_placement_valid] on a pattern that is not a
    fiducial returns [True] only when every settings object has a drawing
    function, and then nothing is logged; whenever it logs, it logs a
    single warning and returns [False]. *)
Theorem placement_valid_only_if_all_supported
    (pattern : BasePattern) (image : FibsemImage) (log : list LogRecord)
    (r : Result bool) :
  is_fiducial pattern = false →
  is_pattern_placement_valid pattern image = (log, r) →
  (r = Ok true →
   log = [] ∧ Forall (fun p => is_supported p = true) (define pattern)) ∧
  (log <> [] →
   r = Ok false ∧
   ∃ p, p ∈ define pattern ∧ log = [warning_not_supported (type p)] ∧
        is_supported p = false).
Proof.
  intros Hfid. unfold is_pattern_placement_valid. rewrite Hfid.
  generalize (define pattern). intros settings.
  induction settings as [|p rest IH]; simpl.
  - intros [= <- <-]. split; [ intros _; split; constructor | intros H; contradiction ].
  - destruct (NAPARI_DRAWING_FUNCTIONS (type p)) as [fn|] eqn:E.
    + destruct (fn p (data_shape image) (pixel_size_x image)) as [shape|e].
      * destruct (match shape with
                  | VertexArray vs =>
                      Ok (validate_pattern_placement (data_shape image) vs)
                  | ImageAt img at_ =>
                      validate_bitmap_placement (data_shape image) img at_
                  end) as [[|]|e].
        -- intros H. destruct (IH H) as [H1 H2]. split.
           ++ intros Hr. destruct (H1 Hr) as [Hl Hall]. split; [ exact Hl | ].
              constructor; [ unfold is_supported; rewrite E; reflexivity | exact Hall ].
           ++ intros Hl. destruct (H2 Hl) as (Hr & q & Hq & Hlog & Hsup).
              split; [ exact Hr | ]. exists q.
              split; [ apply list_elem_of_further, Hq | split; assumption ].
        -- intros [= <- <-]. split; [ discriminate | intros H; contradiction ].
        -- intros [= <- <-]. split; [ discriminate | intros H; contradiction ].
      * intros [= <- <-]. split; [ discriminate | intros H; contradiction ].
    + intros [= <- <-]. split; [ discriminate | ]. intros _.
      split; [ reflexivity | ]. exists p.
      split; [ apply list_elem_of_here | split; [ reflexivity | ] ].
      unfold is_supported. rewrite E. reflexivity.
Qed.

(** *** The lists handed to the viewer *)

(** One shape type and one colour for each shape. *)
Definition balanced (d : Drawing) : Prop :=
  length (all_shape_types d) = length (all_napari_shapes d) ∧
  length (all_shape_colours d) = length (all_napari_shapes d).

Lemma convert_stage_patterns_lengths image_shape pixelsize settings :
  ∀ log shapes types,
  convert_stage_patterns image_shape pixelsize settings = (log, Ok (shapes, types)) →
  length types = length shapes.
Proof.
  induction settings as [|p rest IH]; intros log shapes types; simpl.
  - intros [= _ <- <-]. reflexivity.
  - destruct (NAPARI_DRAWING_FUNCTIONS (type p)) as [fn|].
    + destruct (fn p image_shape pixelsize) as [shape|e]; [ | discriminate ].
      destruct (convert_stage_patterns image_shape pixelsize rest) as [log' r].
      destruct r as [[shapes' types']|e]; [ | discriminate ].
      intros [= _ <- <-]. simpl. f_equal. apply (IH log' _ _ eq_refl).
    + destruct (convert_stage_patterns image_shape pixelsize rest) as [log' r].
      intros [= _ ->]. apply (IH log' _ _ eq_refl).
Qed.

Lemma create_crosshair_shape_two centre_point image_shape pixelsize cs :
  create_crosshair_shape centre_point image_shape pixelsize = Ok cs →
  length cs = 2%nat.
Proof.
  unfold create_crosshair_shape.
  destruct (Req_dec_T pixelsize 0); [ discriminate | ].
  intros [= <-]. reflexivity.
Qed.

Lemma add_stage_shapes_balanced image_shape pixelsize draw_crosshair n i stage
    shapes types d d' :
  length types = length shapes → balanced d →
  add_stage_shapes image_shape pixelsize draw_crosshair n i stage shapes types d
  = Ok d' →
  balanced d'.
Proof.
  intros Hlen [Ht Hc]. unfold add_stage_shapes.
  destruct shapes as [|s shapes]; [ intros [= <-]; split; assumption | ].
  destruct draw_crosshair.
  - destruct (create_crosshair_shape (point (pattern stage)) image_shape pixelsize)
      as [cs|e] eqn:E; [ | discriminate ].
    apply create_crosshair_shape_two in E.
    intros [= <-]. unfold balanced, extend in *.
    cbn [all_shape_types all_napari_shapes all_shape_colours].
    rewrite !length_app. cbn [length]. rewrite repeat_length.
    rewrite !length_app, !length_map, E. simpl in Hlen. split; lia.
  - intros [= <-]. unfold balanced, extend in *.
    cbn [all_shape_types all_napari_shapes all_shape_colours].
    rewrite !length_app. cbn [length]. rewrite repeat_length.
    simpl in Hlen. split; lia.
Qed.

Lemma convert_stages_balanced image_shape pixelsize draw_crosshair n stages :
  ∀ i d log d',
  balanced d →
  convert_stages image_shape pixelsize draw_crosshair n i stages d = (log, Ok d') →
  balanced d'.
Proof.
  induction stages as [|stage rest IH]; intros i d log d' Hd; simpl.
  - intros [= _ <-]. exact Hd.
  - pose proof (convert_stage_patterns_lengths image_shape pixelsize
                  (define (pattern stage))) as Hl.
    destruct (convert_stage_patterns image_shape pixelsize (define (pattern stage)))
      as [log1 r].
    destruct r as [[shapes types]|e]; [ | discriminate ].
    specialize (Hl log1 shapes types eq_refl).
    pose proof (add_stage_shapes_balanced image_shape pixelsize draw_crosshair
                  n i stage shapes types d) as Ha.
    destruct (add_stage_shapes image_shape pixelsize draw_crosshair n i stage
                shapes types d) as [d1|e]; [ | discriminate ].
    specialize (Ha d1 Hl Hd eq_refl).
    specialize (IH (S i) d1).
    destruct (convert_stages image_shape pixelsize draw_crosshair n (S i) rest d1)
      as [log2 r2].
    intros [= _ ->]. apply (IH log2 d' Ha eq_refl).
Qed.

(** X12.  Whenever [draw_milling_patterns_in_napari] returns, the three
    lists it hands to the viewer line up: there is one shape type and one
    colour for each shape, crosshairs included. *)
Theorem drawing_lists_line_up
    image_shape milling_stages pixelsize draw_crosshair background log d names :
  draw_milling_patterns_in_napari image_shape milling_stages pixelsize
    draw_crosshair background = (log, Ok (d, names)) →
  length (all_shape_types d) = length (all_napari_shapes d) ∧
  length (all_shape_colours d) = length (all_napari_shapes d) ∧
  names = ["Milling Patterns"].
Proof.
  unfold draw_milling_patterns_in_napari.
  pose proof (convert_stages_balanced image_shape pixelsize draw_crosshair
                (length milling_stages)
                (match background with
                 | Some b => milling_stages ++ b
                 | None => milling_stages
                 end) 0%nat no_drawing) as H.
  destruct (convert_stages image_shape pixelsize draw_crosshair
              (length milling_stages) 0 _ no_drawing) as [log' r].
  destruct r as [d0|e]; [ | discriminate ].
  intros [= _ <- <-].
  destruct (H log' d0 (conj eq_refl eq_refl) eq_refl) as [H1 H2].
  repeat split; assumption.
Qed.

End WithToolkit.

(** *** The rectangle, in the words of its description *)

(** The point [(px, py)] turned about [(cx, cy)] by [angle]. *)
Definition rotate_about (cx cy angle : R) (px py : R) : R * R :=
  (cx + ((px - cx) * cos angle - (py - cy) * sin angle),
   cy + ((px - cx) * sin angle + (py - cy) * cos angle)).

(** The corners of the [w] by [h] rectangle centred at [(cx, cy)], as
    [(x, y)] pairs. *)
Definition rectangle_corners (cx cy w h : R) : list (R * R) :=
  [(cx - w / 2, cy - h / 2); (cx + w / 2, cy - h / 2);
   (cx + w / 2, cy + h / 2); (cx - w / 2, cy + h / 2)].

Definition described_rectangle
    (s : FibsemRectangleSettings) (shape : ImageShape) (pixelsize : R)
  : list Vertex :=
  let '(icy, icx) := get_image_pixel_centre shape in
  let w := IZR (int (rect_width s / pixelsize)) in
  let h := IZR (int (rect_height s / pixelsize)) in
  let cx := IZR (int (IZR icx + rect_centre_x s / pixelsize)) in
  let cy := IZR (int (IZR icy - rect_centre_y s / pixelsize)) in
  List.map
    (fun corner : R * R =>
       let '(px, py) := rotate_about cx cy (- rect_rotation s) corner.1 corner.2 in
       (py, px))
    (rectangle_corners cx cy w h).

Lemma int_IZR (z : Z) : int (IZR z) = z.
Proof.
  unfold int. destruct (Rle_dec 0 (IZR z)) as [H|H].
  - symmetry. apply Int_part_spec. lra.
  - rewrite <- opp_IZR. rewrite <- (Int_part_spec (IZR (- z)) (- z)%Z); [ lia | lra ].
Qed.

(** C6.  For a pixel size other than zero, [convert_pattern_to_napari_rect]
    returns the four corners of the rectangle of width
    [int(width / pixelsize)] and height [int(height / pixelsize)] centred
    at [(int(icx + centre_x / pixelsize), int(icy - centre_y / pixelsize))],
    where [(icy, icx)] is the image's pixel centre, each corner turned
    about that centre by the negation of the pattern's rotation, as
    [[y, x]] pairs. *)
Theorem convert_pattern_to_napari_rect_corners
    (s : FibsemRectangleSettings) (shape : ImageShape) (pixelsize : R) :
  pixelsize <> 0 →
  get_image_pixel_centre shape = ((shape.1 / 2)%Z, (shape.2 / 2)%Z) ∧
  convert_pattern_to_napari_rect (Rectangle s) shape pixelsize =
  Ok (described_rectangle s shape pixelsize).
Proof.
  intros Hp. split; [ reflexivity | ].
  unfold convert_pattern_to_napari_rect, described_rectangle.
  destruct (get_image_pixel_centre shape) as [icy icx].
  destruct (Req_dec_T pixelsize 0) as [E|_]; [ contradiction | ].
  unfold rotated_corners, rectangle_corners, rotate_about; simpl.
  f_equal.
  repeat match goal with
         | |- _ :: _ = _ :: _ => apply (f_equal2 cons)
         | |- (_, _) = (_, _) => apply (f_equal2 pair)
         end; try reflexivity; field.
Qed.

(** The conversion on a rectangle of 4 by 2 at the centre of a 10 by 20
    image, unrotated, with unit pixel size. *)
Example convert_pattern_to_napari_rect_example :
  convert_pattern_to_napari_rect
    (Rectangle (mkRectangleSettings 4 2 0 0 0)) (10%Z, 20%Z) 1 =
  Ok [(4, 8); (4, 12); (6, 12); (6, 8)].
Proof.
  unfold convert_pattern_to_napari_rect, get_image_pixel_centre; simpl.
  destruct (Req_dec_T 1 0) as [E|_]; [ lra | ].
  replace (4 / 1) with (IZR 4) by lra.
  replace (2 / 1) with (IZR 2) by lra.
  change (20 `div` 2)%Z with 10%Z. change (10 `div` 2)%Z with 5%Z.
  replace (IZR 10 + 0 / 1) with (IZR 10) by lra.
  replace (IZR 5 - 0 / 1) with (IZR 5) by lra.
  rewrite !int_IZR. unfold rotated_corners.
  rewrite Ropp_0, cos_0, sin_0.
  f_equal.
  repeat match goal with
         | |- _ :: _ = _ :: _ => apply (f_equal2 cons)
         | |- (_, _) = (_, _) => apply (f_equal2 pair)
         end; try reflexivity; lra.
Qed.

Lemma convert_pattern_to_napari_rect_corners_witness :
  convert_pattern_to_napari_rect
    (Rectangle (mkRectangleSettings 4 2 0 0 0)) (10%Z, 20%Z) 1 =
  Ok (described_rectangle (mkRectangleSettings 4 2 0 0 0) (10%Z, 20%Z) 1).
Proof.
  apply (convert_pattern_to_napari_rect_corners
           (mkRectangleSettings 4 2 0 0 0) (10%Z, 20%Z) 1).
  lra.
Defined.

(** *** Reduced areas *)

Lemma Rmin_left_le (a b : R) : a <= b → Rmin a b = a.
Proof. intros H. unfold Rmin. destruct (Rle_dec a b); lra. Qed.

Lemma Rmin_right_le (a b : R) : b <= a → Rmin a b = b.
Proof. intros H. unfold Rmin. destruct (Rle_dec a b); lra. Qed.

Lemma Rmax_left_le (a b : R) : b <= a → Rmax a b = a.
Proof. intros H. unfold Rmax. destruct (Rle_dec a b); lra. Qed.

Lemma Rmax_right_le (a b : R) : a <= b → Rmax a b = b.
Proof. intros H. unfold Rmax. destruct (Rle_dec a b); lra. Qed.

(** C7.  Over the reals, a reduced area of non-negative width and height
    survives the trip to a napari shape and back, on an image of positive
    dimensions. *)
Theorem reduced_area_round_trip
    (r : FibsemRectangle) (image_shape : ImageShape) :
  0 <= width r → 0 <= height r →
  (0 < image_shape.1)%Z → (0 < image_shape.2)%Z →
  convert_shape_to_image_area
    (convert_reduced_area_to_napari_shape r image_shape) image_shape = Ok r.
Proof.
  intros Hw Hh Hrows Hcols.
  destruct r as [l t w h]; destruct image_shape as [rows cols]; simpl in *.
  apply IZR_lt in Hrows, Hcols.
  unfold convert_shape_to_image_area, convert_reduced_area_to_napari_shape; simpl.
  destruct (Req_dec_T (IZR cols) 0) as [E|_]; [ lra | ].
  destruct (Req_dec_T (IZR rows) 0) as [E|_]; [ lra | ].
  unfold min_of, max_of, vertex_x, vertex_y; simpl.
  assert (Hx : l * IZR cols <= l * IZR cols + w * IZR cols) by nra.
  assert (Hy : t * IZR rows <= t * IZR rows + h * IZR rows) by nra.
  rewrite (Rmin_left_le _ _ Hx), (Rmin_left_le _ _ Hx),
          (Rmin_left_le _ _ (Rle_refl _)).
  rewrite (Rmax_right_le _ _ Hx), (Rmax_left_le _ _ (Rle_refl _)),
          (Rmax_left_le _ _ Hx).
  rewrite (Rmin_left_le _ _ (Rle_refl _)), (Rmin_left_le _ _ Hy),
          (Rmin_left_le _ _ Hy).
  rewrite (Rmax_left_le _ _ (Rle_refl _)), (Rmax_right_le _ _ Hy),
          (Rmax_left_le _ _ (Rle_refl _)).
  f_equal. f_equal; field; lra.
Qed.

Lemma reduced_area_round_trip_witness :
  convert_shape_to_image_area
    (convert_reduced_area_to_napari_shape
       (mkFibsemRectangle (1 / 4) (1 / 4) (1 / 2) (1 / 2)) (1024%Z, 1536%Z))
    (1024%Z, 1536%Z) =
  Ok (mkFibsemRectangle (1 / 4) (1 / 4) (1 / 2) (1 / 2)).
Proof.
  apply (reduced_area_round_trip
           (mkFibsemRectangle (1 / 4) (1 / 4) (1 / 2) (1 / 2)) (1024%Z, 1536%Z));
    simpl; [ lra | lra | lia | lia ].
Defined.

(** *** Placement within the image *)

Definition within_image (image_shape : ImageShape) (v : Vertex) : Prop :=
  0 <= vertex_x v <= IZR image_shape.2 ∧ 0 <= vertex_y v <= IZR image_shape.1.

Lemma Rltb_false (a b : R) : Rltb a b = false ↔ b <= a.
Proof. unfold Rltb. destruct (Rlt_dec a b); split; intros; try lra; congruence. Qed.

Lemma validate_pattern_placement_iff (image_shape : ImageShape) (shape : list Vertex) :
  validate_pattern_placement image_shape shape = true ↔
  Forall (within_image image_shape) shape.
Proof.
  induction shape as [|v rest IH]; simpl.
  - split; [ constructor | reflexivity ].
  - rewrite Forall_cons. unfold within_image at 1.
    destruct (Rltb (vertex_x v) 0) eqn:E1; simpl.
    { split; [ discriminate | ]. intros [[[H _] _] _].
      unfold Rltb in E1. destruct (Rlt_dec (vertex_x v) 0); [ lra | discriminate ]. }
    destruct (Rltb (IZR image_shape.2) (vertex_x v)) eqn:E2; simpl.
    { split; [ discriminate | ]. intros [[[_ H] _] _].
      unfold Rltb in E2.
      destruct (Rlt_dec (IZR image_shape.2) (vertex_x v)); [ lra | discriminate ]. }
    destruct (Rltb (vertex_y v) 0) eqn:E3; simpl.
    { split; [ discriminate | ]. intros [[_ [H _]] _].
      unfold Rltb in E3. destruct (Rlt_dec (vertex_y v) 0); [ lra | discriminate ]. }
    destruct (Rltb (IZR image_shape.1) (vertex_y v)) eqn:E4; simpl.
    { split; [ discriminate | ]. intros [[_ [_ H]] _].
      unfold Rltb in E4.
      destruct (Rlt_dec (IZR image_shape.1) (vertex_y v)); [ lra | discriminate ]. }
    apply Rltb_false in E1, E2, E3, E4.
    rewrite IH. split; [ intros H | intros [_ H]; exact H ].
    split; [ repeat split; assumption | exact H ].
Qed.

(** C8.  [validate_pattern_placement] returns [True] exactly when every
    vertex [[y, x]] has [0 <= x <= width] and [0 <= y <= height].  Both
    bounds are inclusive: on an image of [rows] by [cols] pixels the vertex
    [[rows, cols]], one past the last pixel index each way, is accepted. *)
Theorem validate_pattern_placement_inclusive
    (image_shape : ImageShape) (shape : list Vertex) :
  (validate_pattern_placement image_shape shape = true ↔
   Forall (fun v => 0 <= vertex_x v <= IZR image_shape.2 ∧
                    0 <= vertex_y v <= IZR image_shape.1) shape) ∧
  ((0 <= image_shape.1)%Z → (0 <= image_shape.2)%Z →
   validate_pattern_placement image_shape
     [(IZR image_shape.1, IZR image_shape.2)] = true).
Proof.
  split; [ apply validate_pattern_placement_iff | ].
  intros Hrows Hcols. apply validate_pattern_placement_iff.
  apply Forall_singleton. apply IZR_le in Hrows, Hcols.
  unfold within_image, vertex_x, vertex_y; simpl in *. lra.
Qed.

Lemma validate_pattern_placement_inclusive_witness :
  validate_pattern_placement (1024%Z, 1536%Z) [(1024, 1536)] = true.
Proof.
  apply (validate_pattern_placement_inclusive (1024%Z, 1536%Z) []); simpl; lia.
Defined.

(** A pattern with one settings object of a type the table does not
    know, and a toolkit without bitmap files. *)
Definition no_bitmap (_ : string) (_ _ : Z) (_ : R) : Result unit := Raise OSError.
Definition no_fiducial (_ : FibsemImage) (_ : Point) (_ : R) : bool := false.
Definition no_bitmap_placement (_ : ImageShape) (_ : unit) (_ : Z * Z)
  : Result bool := Raise ValueError.

Definition polygon_pattern : BasePattern :=
  mkPattern false (mkPoint 0 0) 0 [OtherSettings "FibsemPolygonSettings"].

Definition blank_image : FibsemImage := mkImage (1024%Z, 1536%Z) 1.

(** A stage with a circle and a settings object the table does not know. *)
Definition circle_stage : FibsemMillingStage :=
  mkStage (mkPattern false (mkPoint 0 0) 0
             [Circle (mkCircleSettings 2 0 0); OtherSettings "FibsemPolygonSettings"]).







(** *** More on the converters *)

(** X14.  A circle pattern is placed validly exactly when the square
    about it, of half side [int(radius / pixelsize)] around the centre
    pixel, lies within the image, borders included. *)
Theorem circle_placement_valid_iff
    (s : FibsemCircleSettings) (shape : ImageShape) (pixelsize : R) :
  pixelsize <> 0 →
  let r := int (circle_radius s / pixelsize) in
  let cx := int (IZR (shape.2 / 2) + circle_centre_x s / pixelsize) in
  let cy := int (IZR (shape.1 / 2) - circle_centre_y s / pixelsize) in
  ∃ vs, convert_pattern_to_napari_circle (Circle s) shape pixelsize = Ok vs ∧
        (validate_pattern_placement shape vs = true ↔
         (0 <= cx - r <= shape.2 ∧ 0 <= cx + r <= shape.2 ∧
          0 <= cy - r <= shape.1 ∧ 0 <= cy + r <= shape.1)%Z).
Proof.
  intros Hp r cx cy. unfold convert_pattern_to_napari_circle, get_image_pixel_centre.
  destruct (Req_dec_T pixelsize 0) as [E|_]; [ contradiction | ].
  fold r cx cy. eexists. split; [ reflexivity | ].
  rewrite validate_pattern_placement_iff.
  rewrite !Forall_cons, Forall_nil. unfold within_image, vertex_x, vertex_y; simpl.
  split.
  - intros ([[H1 H2] [H3 H4]] & [[H5 H6] [H7 H8]] & [[H9 H10] [H11 H12]] & _).
    repeat split; apply le_IZR; assumption.
  - intros ([H1 H2] & [H3 H4] & [H5 H6] & [H7 H8]).
    repeat split; try (apply IZR_le; assumption); exact I.
Qed.

Definition dist2 (a b : Vertex) : R :=
  (vertex_x a - vertex_x b) * (vertex_x a - vertex_x b) +
  (vertex_y a - vertex_y b) * (vertex_y a - vertex_y b).

Lemma rotated_corners_rectangle (cx cy : Z) (w h r : R) :
  ∃ v0 v1 v2 v3,
    rotated_corners cx cy w h r = [v0; v1; v2; v3] ∧
    vertex_x v0 + vertex_x v2 = 2 * IZR cx ∧
    vertex_y v0 + vertex_y v2 = 2 * IZR cy ∧
    vertex_x v1 + vertex_x v3 = 2 * IZR cx ∧
    vertex_y v1 + vertex_y v3 = 2 * IZR cy ∧
    dist2 v0 v1 = w * w ∧ dist2 v3 v2 = w * w ∧
    dist2 v1 v2 = h * h ∧ dist2 v0 v3 = h * h ∧
    dist2 v0 v2 = w * w + h * h ∧ dist2 v1 v3 = w * w + h * h.
Proof.
  unfold rotated_corners. do 4 eexists. split; [ reflexivity | ].
  unfold dist2, vertex_x, vertex_y; simpl.
  pose proof (sin2_cos2 r) as H. unfold Rsqr in H.
  generalize dependent (cos r). generalize dependent (sin r).
  intros sn c H.
  repeat split; try field.
  - replace (w * w) with (w * w * (sn * sn + c * c)) by (rewrite H; ring). field.
  - replace (w * w) with (w * w * (sn * sn + c * c)) by (rewrite H; ring). field.
  - replace (h * h) with (h * h * (sn * sn + c * c)) by (rewrite H; ring). field.
  - replace (h * h) with (h * h * (sn * sn + c * c)) by (rewrite H; ring). field.
  - replace (w * w + h * h) with ((w * w + h * h) * (sn * sn + c * c))
      by (rewrite H; ring). field.
  - replace (w * w + h * h) with ((w * w + h * h) * (sn * sn + c * c))
      by (rewrite H; ring). field.
Qed.

(** X15.  Whatever its rotation, the converted rectangle is a rectangle
    of the converted width and height about the converted centre: both
    diagonals have the centre as midpoint and the same length, and the
    sides have the lengths [w] and [h]. *)
Theorem rotated_rectangle_keeps_size_and_centre
    (s : FibsemRectangleSettings) (shape : ImageShape) (pixelsize : R) :
  pixelsize <> 0 →
  let w := IZR (int (rect_width s / pixelsize)) in
  let h := IZR (int (rect_height s / pixelsize)) in
  let cx := IZR (int (IZR (shape.2 / 2) + rect_centre_x s / pixelsize)) in
  let cy := IZR (int (IZR (shape.1 / 2) - rect_centre_y s / pixelsize)) in
  ∃ v0 v1 v2 v3,
    convert_pattern_to_napari_rect (Rectangle s) shape pixelsize =
    Ok [v0; v1; v2; v3] ∧
    vertex_x v0 + vertex_x v2 = 2 * cx ∧ vertex_y v0 + vertex_y v2 = 2 * cy ∧
    vertex_x v1 + vertex_x v3 = 2 * cx ∧ vertex_y v1 + vertex_y v3 = 2 * cy ∧
    dist2 v0 v1 = w * w ∧ dist2 v3 v2 = w * w ∧
    dist2 v1 v2 = h * h ∧ dist2 v0 v3 = h * h ∧
    dist2 v0 v2 = w * w + h * h ∧ dist2 v1 v3 = w * w + h * h.
Proof.
  intros Hp w h cx cy.
  unfold convert_pattern_to_napari_rect, get_image_pixel_centre.
  destruct (Req_dec_T pixelsize 0) as [E|_]; [ contradiction | ].
  destruct (rotated_corners_rectangle
              (int (IZR (shape.2 / 2) + rect_centre_x s / pixelsize))
              (int (IZR (shape.1 / 2) - rect_centre_y s / pixelsize))
              w h (- rect_rotation s)) as (v0 & v1 & v2 & v3 & E & H).
  exists v0, v1, v2, v3. split; [ | exact H ].
  unfold w, h. rewrite <- E. reflexivity.
Qed.

(** X16.  Over the reals the two shapes of a crosshair are a horizontal
    bar of 40 by 1 pixels and a vertical bar of 1 by 40 pixels, both
    centred on the pixel of the centre point. *)
Theorem crosshair_is_two_centred_bars
    (centre_point : Point) (shape : ImageShape) (pixelsize : R) :
  pixelsize <> 0 →
  let cx := IZR (int (IZR (shape.2 / 2) + x centre_point / pixelsize)) in
  let cy := IZR (int (IZR (shape.1 / 2) - y centre_point / pixelsize)) in
  create_crosshair_shape centre_point shape pixelsize =
  Ok [[(cy - 1 / 2, cx - 20); (cy - 1 / 2, cx + 20);
       (cy + 1 / 2, cx + 20); (cy + 1 / 2, cx - 20)];
      [(cy - 20, cx + 1 / 2); (cy + 20, cx + 1 / 2);
       (cy + 20, cx - 1 / 2); (cy - 20, cx - 1 / 2)]].
Proof.
  intros Hp cx cy. unfold create_crosshair_shape.
  destruct (Req_dec_T pixelsize 0) as [E|_]; [ contradiction | ].
  fold cx cy. unfold rotated_corners; simpl.
  rewrite cos_0, sin_0, cos_PI2, sin_PI2.
  f_equal.
  repeat match goal with
         | |- _ :: _ = _ :: _ => apply (f_equal2 cons)
         | |- (_, _) = (_, _) => apply (f_equal2 pair)
         end; try reflexivity; unfold cx, cy; lra.
Qed.


(** *** From a napari shape to a reduced area *)

Lemma fold_left_Rmin_le (l : list R) : ∀ a,
  fold_left Rmin l a <= a ∧ Forall (fun v => fold_left Rmin l a <= v) l.
Proof.
  induction l as [|b l IH]; intros a; simpl.
  - split; [ lra | constructor ].
  - destruct (IH (Rmin a b)) as [H1 H2].
    pose proof (Rmin_l a b). pose proof (Rmin_r a b).
    split; [ lra | ]. constructor; [ lra | exact H2 ].
Qed.

Lemma fold_left_Rmax_ge (l : list R) : ∀ a,
  a <= fold_left Rmax l a ∧ Forall (fun v => v <= fold_left Rmax l a) l.
Proof.
  induction l as [|b l IH]; intros a; simpl.
  - split; [ lra | constructor ].
  - destruct (IH (Rmax a b)) as [H1 H2].
    pose proof (Rmax_l a b). pose proof (Rmax_r a b).
    split; [ lra | ]. constructor; [ lra | exact H2 ].
Qed.

Lemma fold_left_Rmin_In (l : list R) : ∀ a, In (fold_left Rmin l a) (a :: l).
Proof.
  induction l as [|b l IH]; intros a; simpl; [ left; reflexivity | ].
  destruct (IH (Rmin a b)) as [H|H]; [ | right; right; exact H ].
  rewrite <- H. unfold Rmin. destruct (Rle_dec a b); [ left | right; left ];
    reflexivity.
Qed.

Lemma fold_left_Rmax_In (l : list R) : ∀ a, In (fold_left Rmax l a) (a :: l).
Proof.
  induction l as [|b l IH]; intros a; simpl; [ left; reflexivity | ].
  destruct (IH (Rmax a b)) as [H|H]; [ | right; right; exact H ].
  rewrite <- H. unfold Rmax. destruct (Rle_dec a b); [ right; left | left ];
    reflexivity.
Qed.

(** X17.  [convert_shape_to_image_area] needs two vertices at least and
    raises an index error on fewer.  On an image of positive dimensions
    it returns the bounding box of the vertices as fractions of the
    image: width and height are never negative, every vertex lies
    between [left] and [left + width] across and between [top] and
    [top + height] down, and each of the four sides passes through a
    vertex, so no smaller box would do. *)
Theorem convert_shape_to_image_area_bounding_box
    (shape : list Vertex) (image_shape : ImageShape) :
  ((length shape < 2)%nat →
   convert_shape_to_image_area shape image_shape = Raise IndexError) ∧
  ((2 <= length shape)%nat → (0 < image_shape.1)%Z → (0 < image_shape.2)%Z →
   ∃ r, convert_shape_to_image_area shape image_shape = Ok r ∧
        0 <= width r ∧ 0 <= height r ∧
        Forall (fun v =>
                  left r * IZR image_shape.2 <= vertex_x v
                    <= (left r + width r) * IZR image_shape.2 ∧
                  top r * IZR image_shape.1 <= vertex_y v
                    <= (top r + height r) * IZR image_shape.1) shape ∧
        (∃ v, In v shape ∧ vertex_x v = left r * IZR image_shape.2) ∧
        (∃ v, In v shape ∧ vertex_x v = (left r + width r) * IZR image_shape.2) ∧
        (∃ v, In v shape ∧ vertex_y v = top r * IZR image_shape.1) ∧
        (∃ v, In v shape ∧ vertex_y v = (top r + height r) * IZR image_shape.1)).
Proof.
  split.
  - destruct shape as [|v0 [|v1 rest]]; simpl; intros H; try reflexivity; lia.
  - destruct image_shape as [rows cols]. simpl.
    intros Hlen Hrows Hcols. apply IZR_lt in Hrows, Hcols.
    destruct shape as [|v0 [|v1 rest]]; simpl in Hlen; try lia.
    unfold convert_shape_to_image_area.
    cbn [List.map fst snd].
    destruct (Req_dec_T (IZR cols) 0) as [E|_]; [ lra | ].
    destruct (Req_dec_T (IZR rows) 0) as [E|_]; [ lra | ].
    unfold min_of, max_of.
    set (xs := vertex_x v1 :: List.map vertex_x rest).
    set (ys := vertex_y v1 :: List.map vertex_y rest).
    destruct (fold_left_Rmin_le xs (vertex_x v0)) as [Xm1 Xm2].
    destruct (fold_left_Rmax_ge xs (vertex_x v0)) as [XM1 XM2].
    destruct (fold_left_Rmin_le ys (vertex_y v0)) as [Ym1 Ym2].
    destruct (fold_left_Rmax_ge ys (vertex_y v0)) as [YM1 YM2].
    pose proof (fold_left_Rmin_In xs (vertex_x v0)) as Xmi.
    pose proof (fold_left_Rmax_In xs (vertex_x v0)) as XMi.
    pose proof (fold_left_Rmin_In ys (vertex_y v0)) as Ymi.
    pose proof (fold_left_Rmax_In ys (vertex_y v0)) as YMi.
    set (xmin := fold_left Rmin xs (vertex_x v0)) in *.
    set (xmax := fold_left Rmax xs (vertex_x v0)) in *.
    set (ymin := fold_left Rmin ys (vertex_y v0)) in *.
    set (ymax := fold_left Rmax ys (vertex_y v0)) in *.
    eexists. split; [ reflexivity | ]. cbn [left top width height].
    assert (Hic : 0 < / IZR cols) by (apply Rinv_0_lt_compat; lra).
    assert (Hir : 0 < / IZR rows) by (apply Rinv_0_lt_compat; lra).
    assert (Ex0 : xmin / IZR cols * IZR cols = xmin) by (field; lra).
    assert (Ex1 : (xmin / IZR cols + (xmax / IZR cols - xmin / IZR cols))
                  * IZR cols = xmax) by (field; lra).
    assert (Ey0 : ymin / IZR rows * IZR rows = ymin) by (field; lra).
    assert (Ey1 : (ymin / IZR rows + (ymax / IZR rows - ymin / IZR rows))
                  * IZR rows = ymax) by (field; lra).
    rewrite Ex0, Ex1, Ey0, Ey1.
    split; [ unfold Rdiv; nra | ]. split; [ unfold Rdiv; nra | ].
    assert (HX : Forall (fun v => xmin <= vertex_x v <= xmax) (v1 :: rest)).
    { apply Forall_forall. intros v Hv.
      unfold xs in Xm2, XM2.
      change (vertex_x v1 :: List.map vertex_x rest)
        with (List.map vertex_x (v1 :: rest)) in Xm2, XM2.
      rewrite List.Forall_map in Xm2, XM2. rewrite Forall_forall in Xm2, XM2.
      split; [ apply Xm2, Hv | apply XM2, Hv ]. }
    assert (HY : Forall (fun v => ymin <= vertex_y v <= ymax) (v1 :: rest)).
    { apply Forall_forall. intros v Hv.
      unfold ys in Ym2, YM2.
      change (vertex_y v1 :: List.map vertex_y rest)
        with (List.map vertex_y (v1 :: rest)) in Ym2, YM2.
      rewrite List.Forall_map in Ym2, YM2. rewrite Forall_forall in Ym2, YM2.
      split; [ apply Ym2, Hv | apply YM2, Hv ]. }
    assert (Hin : ∀ (f : Vertex → R) (m : R),
              In m (f v0 :: f v1 :: List.map f rest) →
              ∃ v, In v (v0 :: v1 :: rest) ∧ f v = m).
    { intros f m Hm.
      change (f v0 :: f v1 :: List.map f rest)
        with (List.map f (v0 :: v1 :: rest)) in Hm.
      apply in_map_iff in Hm as (v & Hv & Hi). exists v. split; assumption. }
    split; [ | split; [ | split; [ | split ] ] ].
    + constructor; [ split; split; assumption | ].
      rewrite Forall_forall in HX, HY. apply Forall_forall. intros v Hv.
      split; [ apply HX, Hv | apply HY, Hv ].
    + apply (Hin vertex_x xmin Xmi).
    + apply (Hin vertex_x xmax XMi).
    + apply (Hin vertex_y ymin Ymi).
    + apply (Hin vertex_y ymax YMi).
Qed.

(** X18.  The other round trip: an upright rectangle drawn in the viewer,
    given by its corners in the order top-left, top-right, bottom-right,
    bottom-left, is recovered from the reduced area it converts to, on an
    image of positive dimensions and over the reals. *)
Theorem napari_rectangle_round_trip
    (y0 x0 y1 x1 : R) (image_shape : ImageShape) :
  y0 <= y1 → x0 <= x1 →
  (0 < image_shape.1)%Z → (0 < image_shape.2)%Z →
  let shape := [(y0, x0); (y0, x1); (y1, x1); (y1, x0)] in
  ∃ r, convert_shape_to_image_area shape image_shape = Ok r ∧
       convert_reduced_area_to_napari_shape r image_shape = shape.
Proof.
  intros Hy Hx Hrows Hcols shape. subst shape.
  destruct image_shape as [rows cols]; simpl in *.
  apply IZR_lt in Hrows, Hcols.
  unfold convert_shape_to_image_area; simpl.
  destruct (Req_dec_T (IZR cols) 0) as [E|_]; [ lra | ].
  destruct (Req_dec_T (IZR rows) 0) as [E|_]; [ lra | ].
  unfold min_of, max_of, vertex_x, vertex_y; simpl.
  rewrite (Rmin_left_le _ _ Hx), (Rmin_left_le _ _ Hx),
          (Rmin_left_le _ _ (Rle_refl _)).
  rewrite (Rmax_right_le _ _ Hx), (Rmax_left_le _ _ (Rle_refl _)),
          (Rmax_left_le _ _ Hx).
  rewrite (Rmin_left_le _ _ (Rle_refl _)), (Rmin_left_le _ _ Hy),
          (Rmin_left_le _ _ Hy).
  rewrite (Rmax_left_le _ _ (Rle_refl _)), (Rmax_right_le _ _ Hy),
          (Rmax_left_le _ _ (Rle_refl _)).
  eexists. split; [ reflexivity | ].
  unfold convert_reduced_area_to_napari_shape; simpl.
  repeat match goal with
         | |- _ :: _ = _ :: _ => apply (f_equal2 cons)
         | |- (_, _) = (_, _) => apply (f_equal2 pair)
         end; try reflexivity; field; lra.
Qed.

(** X19.  [convert_point_to_napari] takes the resolution as
    [[width, height]], the reverse of an image shape, and returns
    [(x, y)], the reverse of a napari vertex.  With that, the two vertices
    of a converted line are the converted start and end points. *)
Theorem line_vertices_are_converted_points
    (s : FibsemLineSettings) (rows cols : Z) (pixelsize : R) :
  pixelsize <> 0 →
  ∃ p0 p1,
    convert_point_to_napari [cols; rows] pixelsize
      (mkPoint (start_x s) (start_y s)) = Ok p0 ∧
    convert_point_to_napari [cols; rows] pixelsize
      (mkPoint (end_x s) (end_y s)) = Ok p1 ∧
    convert_pattern_to_napari_line (Line s) (rows, cols) pixelsize =
    Ok [(IZR p0.2, IZR p0.1); (IZR p1.2, IZR p1.1)].
Proof.
  intros Hp.
  unfold convert_point_to_napari, convert_pattern_to_napari_line,
    get_image_pixel_centre; simpl.
  destruct (Req_dec_T pixelsize 0) as [E|_]; [ contradiction | ].
  do 2 eexists. repeat split.
Qed.

(** *** Removing layers *)

Lemma filter_again {A} (f : A → bool) (l : list A) :
  List.filter f (List.filter f l) = List.filter f l.
Proof.
  induction l as [|a l IH]; simpl; [ reflexivity | ].
  destruct (f a) eqn:E; simpl; [ rewrite E, IH; reflexivity | exact IH ].
Qed.

Lemma filter_is_sublist {A} (f : A → bool) (l : list A) :
  sublist (List.filter f l) l.
Proof.
  induction l as [|a l IH]; simpl; [ constructor | ].
  destruct (f a); [ apply sublist_skip | apply sublist_cons ]; exact IH.
Qed.

(** X20.  [remove_all_napari_shapes_layers] leaves the remaining layers in
    their order.  A layer named in [IGNORE_SHAPES_LAYERS], the two stage
    position layers among them, or in [ignore] always stays, also when it
    is of the layer type or named as an image pattern layer.  Every other
    layer that stays is not of the layer type and has neither
    ["annulus-layer"] nor ["bmp_Image"] in its name.  A second call
    removes nothing more. *)
Theorem remove_all_napari_shapes_layers_keeps_ignored
    {Content} (layers : list (Layer Content))
    (is_layer_type : Layer Content → bool) (ignore : list string) :
  let remaining := remove_all_napari_shapes_layers layers is_layer_type ignore in
  sublist remaining layers ∧
  (∀ layer, layer ∈ layers →
     layer_name layer ∈ IGNORE_SHAPES_LAYERS ++ ignore → layer ∈ remaining) ∧
  (∀ layer, layer ∈ remaining →
     layer_name layer ∈ IGNORE_SHAPES_LAYERS ++ ignore ∨
     (is_layer_type layer = false ∧
      ∀ name, name ∈ IMAGE_PATTERN_LAYERS →
              contains name (layer_name layer) = false)) ∧
  remove_all_napari_shapes_layers remaining is_layer_type ignore = remaining.
Proof.
  intros remaining. subst remaining. unfold remove_all_napari_shapes_layers.
  split; [ apply filter_is_sublist | ].
  split; [ | split; [ | apply filter_again ] ].
  - intros layer Hin Hname. apply list_elem_of_In, filter_In.
    split; [ apply list_elem_of_In, Hin | ].
    unfold collected. rewrite bool_decide_eq_true_2 by exact Hname. reflexivity.
  - intros layer Hin. apply list_elem_of_In, filter_In in Hin.
    destruct Hin as [_ Hc]. unfold collected in Hc.
    destruct (bool_decide (layer_name layer ∈ IGNORE_SHAPES_LAYERS ++ ignore)) eqn:E.
    + left. apply bool_decide_eq_true_1 in E. exact E.
    + right. apply negb_true_iff, orb_false_iff in Hc. destruct Hc as [Ht Hn].
      split; [ exact Ht | ]. intros name Hname.
      apply list_elem_of_In in Hname.
      destruct (contains name (layer_name layer)) eqn:Ec; [ | reflexivity ].
      assert (Hex : existsb (fun name => contains name (layer_name layer))
                      IMAGE_PATTERN_LAYERS = true).
      { apply existsb_exists. exists name. split; assumption. }
      congruence.
Qed.

(** The stage position layers stay although they are shapes layers, and
    the layer of a bitmap pattern goes although it is an image layer. *)
Example remove_all_napari_shapes_layers_example :
  remove_all_napari_shapes_layers
    [mkLayer "saved-stage-positions" true; mkLayer "Milling Patterns" true;
     mkLayer "bmp_Image-1" false; mkLayer "FIB Image" false]
    layer_content [] =
  [mkLayer "saved-stage-positions" true; mkLayer "FIB Image" false].
Proof. vm_compute. reflexivity. Qed.

(** *** The properties above on concrete input *)

Lemma nothing_drawn_without_supported_patterns_witness :
  draw_milling_patterns_in_napari no_bitmap (1024%Z, 1536%Z)
    [mkStage polygon_pattern] 0 true None =
  ([warning_not_supported (TOther "FibsemPolygonSettings")],
   Ok (no_drawing, ["Milling Patterns"])).
Proof.
  apply (nothing_drawn_without_supported_patterns no_bitmap (1024%Z, 1536%Z)
           [mkStage polygon_pattern] 0 true None).
  repeat constructor.
Defined.

Lemma placement_valid_only_if_all_supported_witness :
  ∃ p, p ∈ define polygon_pattern ∧
       [warning_not_supported (TOther "FibsemPolygonSettings")] =
       [warning_not_supported (type p)] ∧
       is_supported no_bitmap p = false.
Proof.
  refine (proj2 (proj2 (placement_valid_only_if_all_supported
                          no_bitmap no_fiducial no_bitmap_placement
                          polygon_pattern blank_image
                          [warning_not_supported (TOther "FibsemPolygonSettings")]
                          (Ok false) eq_refl eq_refl) _)).
  discriminate.
Defined.

Lemma drawing_lists_line_up_witness :
  ∃ d, draw_milling_patterns_in_napari no_bitmap (10%Z, 20%Z) [circle_stage] 1
         true None =
       ([warning_not_supported (TOther "FibsemPolygonSettings")],
        Ok (d, ["Milling Patterns"])) ∧
       length (all_napari_shapes d) = 3%nat ∧
       length (all_shape_types d) = length (all_napari_shapes d) ∧
       length (all_shape_colours d) = length (all_napari_shapes d).
Proof.
  assert (H : ∃ d, draw_milling_patterns_in_napari no_bitmap (10%Z, 20%Z)
                     [circle_stage] 1 true None =
                   ([warning_not_supported (TOther "FibsemPolygonSettings")],
                    Ok (d, ["Milling Patterns"])) ∧
                   length (all_napari_shapes d) = 3%nat).
  { unfold draw_milling_patterns_in_napari, circle_stage; simpl.
    unfold convert_pattern_to_napari_circle, add_stage_shapes,
      create_crosshair_shape; simpl.
    destruct (Req_dec_T 1 0) as [E|_]; [ lra | ]. simpl.
    eexists. split; reflexivity. }
  destruct H as (d & H & Hlen). exists d.
  split; [ exact H | ]. split; [ exact Hlen | ].
  destruct (drawing_lists_line_up no_bitmap _ _ _ _ _ _ _ _ H) as (H1 & H2 & _).
  split; assumption.
Defined.

Lemma circle_placement_valid_iff_witness :
  ∃ vs, convert_pattern_to_napari_circle
          (Circle (mkCircleSettings 2 0 0)) (10%Z, 20%Z) 1 = Ok vs.
Proof.
  destruct (circle_placement_valid_iff (mkCircleSettings 2 0 0) (10%Z, 20%Z) 1)
    as (vs & H & _); [ lra | ].
  exists vs. exact H.
Defined.

Lemma rotated_rectangle_keeps_size_and_centre_witness :
  ∃ v0 v1 v2 v3,
    convert_pattern_to_napari_rect
      (Rectangle (mkRectangleSettings 4 2 0 0 (PI / 6))) (10%Z, 20%Z) 1 =
    Ok [v0; v1; v2; v3] ∧ dist2 v0 v2 = dist2 v1 v3.
Proof.
  destruct (rotated_rectangle_keeps_size_and_centre
              (mkRectangleSettings 4 2 0 0 (PI / 6)) (10%Z, 20%Z) 1)
    as (v0 & v1 & v2 & v3 & H & _ & _ & _ & _ & _ & _ & _ & _ & H1 & H2);
    [ lra | ].
  exists v0, v1, v2, v3. split; [ exact H | ]. rewrite H1, H2. reflexivity.
Defined.

Lemma crosshair_is_two_centred_bars_witness :
  ∃ shapes, create_crosshair_shape (mkPoint 0 0) (10%Z, 20%Z) 1 = Ok shapes ∧
            length shapes = 2%nat.
Proof.
  eexists. split.
  - apply (crosshair_is_two_centred_bars (mkPoint 0 0) (10%Z, 20%Z) 1). lra.
  - reflexivity.
Defined.

Lemma convert_shape_to_image_area_bounding_box_witness :
  ∃ r, convert_shape_to_image_area [(1, 2); (3, 5); (2, 8)] (10%Z, 20%Z) = Ok r ∧
       0 <= width r ∧ 0 <= height r.
Proof.
  destruct (proj2 (convert_shape_to_image_area_bounding_box
                     [(1, 2); (3, 5); (2, 8)] (10%Z, 20%Z)))
    as (r & H & Hw & Hh & _); simpl; [ lia | lia | lia | ].
  exists r. repeat split; assumption.
Defined.

Lemma napari_rectangle_round_trip_witness :
  ∃ r, convert_shape_to_image_area [(1, 2); (1, 5); (3, 5); (3, 2)] (10%Z, 20%Z)
       = Ok r ∧
       convert_reduced_area_to_napari_shape r (10%Z, 20%Z) =
       [(1, 2); (1, 5); (3, 5); (3, 2)].
Proof.
  apply (napari_rectangle_round_trip 1 2 3 5 (10%Z, 20%Z)); simpl;
    [ lra | lra | lia | lia ].
Defined.

Lemma line_vertices_are_converted_points_witness :
  ∃ p0 p1,
    convert_point_to_napari [20%Z; 10%Z] 1 (mkPoint 0 0) = Ok p0 ∧
    convert_point_to_napari [20%Z; 10%Z] 1 (mkPoint 3 4) = Ok p1 ∧
    convert_pattern_to_napari_line (Line (mkLineSettings 0 0 3 4)) (10%Z, 20%Z) 1 =
    Ok [(IZR p0.2, IZR p0.1); (IZR p1.2, IZR p1.1)].
Proof.
  apply (line_vertices_are_converted_points (mkLineSettings 0 0 3 4) 10 20 1).
  lra.
Defined.

End Patterns.
